(** * EDEAIBridge: admission control, execution-session registry and
    conversation-session store

    A shallow embedding of
      - [src/request_limiter.py]      (class [RequestLimiter] and the
                                       [dispatch] method of its middleware),
      - [src/cli_session_manager.py]  (classes [CLISession] and
                                       [CLISessionManager]),
      - [src/session_manager.py]      (classes [Session] and [SessionManager];
                                       this module is only known through
                                       [tests/unit/test_session_manager.py]),
    followed by the properties of the specification that concern them.

    Conventions.  Python [int] is [Z].  A finite Python [float] is the
    rational [Q] it denotes, and an order comparison of floats, or of a float
    and an int, is the order of [Q].  A division that yields a float is
    rounded to the nearest binary64 number ([Binary64.round]).  A [str] that
    is only compared or used as a key is a [string]; a [str] whose length or
    slices matter is the list of its code points ([str]).  A [datetime] is a
    number of microseconds ([Z]), the resolution of the type.  A [dict] with
    string keys is a [gmap string _]; none of the properties below depends on
    the insertion order of a dict.  The locks
    ([asyncio.Lock], [threading.Lock]) delimit the atomic steps: every method
    body is one step of the model.  Logging is not modelled. *)

From Stdlib Require Import ZArith QArith Lia.
From stdpp Require Import base option list strings pretty gmap fin_maps.

Close Scope Q_scope.
Local Open Scope Z_scope.

(** ** Results of calls that may raise *)

(** A Python exception, by its description. *)
Definition exn := string.

Inductive outcome (A : Type) : Type :=
| Return (a : A)
| Raise (e : exn).
Arguments Return {A} a.
Arguments Raise {A} e.

(** ** Python strings by code points *)

(** A Python [str] as the list of its code points: [len] is [length] and
    [s[:n]] is [take n]. *)
Definition str := list N.

(** The [str] of a literal made of ASCII characters. *)
Definition ascii_str (s : string) : str :=
  Ascii.N_of_ascii <$> String.list_ascii_of_string s.

(** ** Binary64 rounding *)

Module Binary64.

(** The integer nearest to [n / d], for [d > 0], ties to the even one. *)
Definition rne (n d : Z) : Z :=
  let q := n `div` d in
  let r2 := 2 * (n `mod` d) in
  if bool_decide (r2 < d) then q
  else if bool_decide (d < r2) then q + 1
  else if Z.even q then q else q + 1.

(** Every binary64 number is an integer multiple of [2^-1074], the smallest
    subnormal.  In such units, the numbers of [[2^(52+j), 2^(53+j)]] are the
    multiples of [2^j], and below [2^53] every integer is one.  This is [j]
    for the non-negative rational [n / d] (in those units). *)
Definition ulp_exponent (n d : Z) : Z :=
  Z.max 0 (Z.log2 (n `div` d) - 52).

(** The binary64 number nearest to [n / d >= 0], ties to even, in units of
    [2^-1074]. *)
Definition round_grid (n d : Z) : Z :=
  let j := ulp_exponent n d in
  rne n (d * 2 ^ j) * 2 ^ j.

(** The binary64 number nearest to the rational [q], ties to even: the
    result of a correctly rounded operation whose exact value is [q].
    Overflow to infinity (magnitudes from [2^1024] on) is not modelled. *)
Definition round (q : Q) : Q :=
  let n := Qnum q * 2 ^ 1074 in
  let d := Z.pos (Qden q) in
  Qmake (if bool_decide (0 ≤ n) then round_grid n d else - round_grid (- n) d)
        (2 ^ 1074)%positive.

End Binary64.

(** ** [src/request_limiter.py] *)

Module RequestLimiter.

(** What [psutil.virtual_memory()] returns, as far as the limiter reads it. *)
Record svmem := Svmem {
  percent : Q;
  used : Z;
  total : Z
}.

(** The fields set by [RequestLimiter.__init__] (the lock apart). *)
Record t := Build {
  max_concurrent : Z;
  memory_threshold : Q;
  active_requests : Z;
  total_requests : Z;
  rejected_requests : Z
}.

(** [RequestLimiter.__init__]. *)
Definition init (max_concurrent : Z) (memory_threshold_percent : Q) : t :=
  {| max_concurrent := max_concurrent;
     memory_threshold := memory_threshold_percent;
     active_requests := 0;
     total_requests := 0;
     rejected_requests := 0 |}.

(** The text of the concurrency denial:
    [f"Max concurrent requests reached ({active}/{max})"]. *)
Definition concurrency_reason (active max : Z) : string :=
  "Max concurrent requests reached (" +:+ pretty active +:+ "/"
    +:+ pretty max +:+ ")".

Section Formatting.

(** Python's rendering of floats, [f"{x:.1f}"] and [f"{x}"], is a parameter:
    only the text of the memory denial depends on it. *)
Variable format_1f : Q → string.
Variable format_float : Q → string.

(** The text of the memory denial:
    [f"Memory threshold exceeded ({memory.percent:.1f}% > {threshold}%)"]. *)
Definition memory_reason (pct threshold : Q) : string :=
  "Memory threshold exceeded (" +:+ format_1f pct +:+ "% > "
    +:+ format_float threshold +:+ "%)".

(** [RequestLimiter.can_accept_request].  [virtual_memory] is what the call
    [psutil.virtual_memory()] produces if it is made: a sample, or the
    exception it raises.  The call is made only on the second branch; the
    method has no handler, so an exception leaves the method.  The limiter
    itself is not modified. *)
Definition can_accept_request (self : t) (virtual_memory : outcome svmem)
  : outcome (bool * option string) :=
  if bool_decide (max_concurrent self ≤ active_requests self) then
    Return (false,
            Some (concurrency_reason (active_requests self) (max_concurrent self)))
  else
    match virtual_memory with
    | Raise e => Raise e
    | Return memory =>
        if Qle_bool (memory_threshold self) (percent memory) then
          Return (false,
                  Some (memory_reason (percent memory) (memory_threshold self)))
        else Return (true, None)
    end.

End Formatting.

(** [RequestLimiter.acquire]: both counters are incremented, then memory is
    sampled for the log line; if that sampling raises, the exception leaves
    the method with the counters already incremented. *)
Definition acquire (self : t) (virtual_memory : outcome svmem)
  : t * outcome unit :=
  let self' :=
    {| max_concurrent := max_concurrent self;
       memory_threshold := memory_threshold self;
       active_requests := active_requests self + 1;
       total_requests := total_requests self + 1;
       rejected_requests := rejected_requests self |} in
  (self', match virtual_memory with
          | Return _ => Return ()
          | Raise e => Raise e
          end).

(** [RequestLimiter.release]: [active_requests = max(0, active_requests - 1)],
    then memory is sampled for the log line. *)
Definition release (self : t) (virtual_memory : outcome svmem)
  : t * outcome unit :=
  let self' :=
    {| max_concurrent := max_concurrent self;
       memory_threshold := memory_threshold self;
       active_requests := Z.max 0 (active_requests self - 1);
       total_requests := total_requests self;
       rejected_requests := rejected_requests self |} in
  (self', match virtual_memory with
          | Return _ => Return ()
          | Raise e => Raise e
          end).

(** A sequence of direct calls of [acquire] and [release], each with the
    result of its memory sampling. *)
Inductive call :=
| Acquire (virtual_memory : outcome svmem)
| Release (virtual_memory : outcome svmem).

Definition run_call (self : t) (c : call) : t :=
  match c with
  | Acquire vm => fst (acquire self vm)
  | Release vm => fst (release self vm)
  end.

Definition run_calls (self : t) (calls : list call) : t :=
  foldl run_call self calls.

(** *** [RequestLimiterMiddleware.dispatch]

    [dispatch] awaits the wrapped application between its admission part and
    its [finally] clause, so other requests run in between: the two parts are
    two steps. *)

Inductive admission :=
| Bypassed                          (* health, metrics and stats paths *)
| Rejected (reason : option string) (* the 503 response *)
| Accepted.                         (* [call_next] is entered *)

Definition unlimited_paths : list string := ["/health"; "/metrics"; "/stats"].

Section Dispatch.

Variable format_1f : Q → string.
Variable format_float : Q → string.

(** [dispatch] up to the call of [call_next]: the path test, then
    [can_accept_request], then either the rejection (which counts it and
    samples memory once more, in [get_stats], for the body of the response)
    or [acquire].  [vm_check], [vm_stats] and [vm_acquire] are the results of
    the memory samplings of [can_accept_request], [get_stats] and
    [acquire]. *)
Definition dispatch_enter (self : t) (path : string)
    (vm_check vm_stats vm_acquire : outcome svmem) : t * outcome admission :=
  if bool_decide (path ∈ unlimited_paths) then (self, Return Bypassed)
  else
    match can_accept_request format_1f format_float self vm_check with
    | Raise e => (self, Raise e)
    | Return (false, reason) =>
        ({| max_concurrent := max_concurrent self;
            memory_threshold := memory_threshold self;
            active_requests := active_requests self;
            total_requests := total_requests self;
            rejected_requests := rejected_requests self + 1 |},
         match vm_stats with
         | Return _ => Return (Rejected reason)
         | Raise e => Raise e
         end)
    | Return (true, _) =>
        match acquire self vm_acquire with
        | (self', Return _) => (self', Return Accepted)
        | (self', Raise e) => (self', Raise e)
        end
    end.

(** The [finally] clause of [dispatch]: [release]. *)
Definition dispatch_exit (self : t) (vm : outcome svmem) : t * outcome unit :=
  release self vm.

(** The steps that requests going through the middleware take on the shared
    limiter, in the order in which they take them. *)
Inductive step :=
| Enter (path : string) (vm_check vm_stats vm_acquire : outcome svmem)
| Exit (vm : outcome svmem).

Definition run_step (self : t) (s : step) : t :=
  match s with
  | Enter path vm_check vm_stats vm_acquire =>
      fst (dispatch_enter self path vm_check vm_stats vm_acquire)
  | Exit vm => fst (dispatch_exit self vm)
  end.

Definition run_steps (self : t) (steps : list step) : t :=
  foldl run_step self steps.

End Dispatch.

(** The invariant of section 3 of the specification (AdmissionState): the
    active count lies between zero and the configured maximum. *)
Definition within_ceiling (self : t) : Prop :=
  0 ≤ active_requests self ≤ max_concurrent self.

(** The dictionary returned by [RequestLimiter.get_stats]. *)
Record limiter_stats := MkStats {
  stats_active_requests : Z;
  stats_max_concurrent : Z;
  stats_total_requests : Z;
  stats_rejected_requests : Z;
  stats_memory_usage_percent : Q;
  stats_memory_used_gb : Q;
  stats_memory_total_gb : Q;
  stats_memory_threshold : Q
}.

(** [RequestLimiter.get_stats]: memory is sampled first (an exception of the
    sampling leaves the method), the counters are read as they are. *)
Definition get_stats (self : t) (virtual_memory : outcome svmem)
  : outcome limiter_stats :=
  match virtual_memory with
  | Raise e => Raise e
  | Return memory =>
      Return {| stats_active_requests := active_requests self;
                stats_max_concurrent := max_concurrent self;
                stats_total_requests := total_requests self;
                stats_rejected_requests := rejected_requests self;
                stats_memory_usage_percent := percent memory;
                stats_memory_used_gb :=
                  Binary64.round (inject_Z (used memory) / inject_Z (1024 ^ 3))%Q;
                stats_memory_total_gb :=
                  Binary64.round (inject_Z (total memory) / inject_Z (1024 ^ 3))%Q;
                stats_memory_threshold := memory_threshold self |}
  end.

(** What [dispatch] gives back: the response of the wrapped application, or
    the 503 [JSONResponse] with its reason, retry delay and statistics. *)
Inductive response :=
| Upstream (body : string)
| ServiceUnavailable (reason : option string) (retry_after_seconds : Z)
                     (stats : limiter_stats).

Section DispatchWhole.

Variable format_1f : Q → string.
Variable format_float : Q → string.

(** [RequestLimiterMiddleware.dispatch] for one request, when no other
    request touches the limiter while the wrapped application runs.
    [call_next] is what the wrapped application produces: a body, or the
    exception it raises.  The [try ... finally] releases on both; an
    exception of [release] itself replaces the result.  [acquire] is called
    before the [try], so its exception is not followed by a [release]. *)
Definition dispatch (self : t) (path : string)
    (vm_check vm_stats vm_acquire : outcome svmem)
    (call_next : outcome string) (vm_release : outcome svmem)
  : t * outcome response :=
  let forward := match call_next with
                 | Return body => Return (Upstream body)
                 | Raise e => Raise e
                 end in
  if bool_decide (path ∈ unlimited_paths) then (self, forward)
  else
    match can_accept_request format_1f format_float self vm_check with
    | Raise e => (self, Raise e)
    | Return (false, reason) =>
        let self' :=
          {| max_concurrent := max_concurrent self;
             memory_threshold := memory_threshold self;
             active_requests := active_requests self;
             total_requests := total_requests self;
             rejected_requests := rejected_requests self + 1 |} in
        (self', match get_stats self' vm_stats with
                | Return st => Return (ServiceUnavailable reason 30 st)
                | Raise e => Raise e
                end)
    | Return (true, _) =>
        match acquire self vm_acquire with
        | (self1, Raise e) => (self1, Raise e)
        | (self1, Return _) =>
            match release self1 vm_release with
            | (self2, Raise e) => (self2, Raise e)
            | (self2, Return _) => (self2, forward)
            end
        end
    end.

End DispatchWhole.

(** The module-level [limiter] and [get_limiter]: the global is created by
    the first call and returned, as it is, by the later ones. *)
Definition get_limiter (limiter : option t) (max_concurrent : Z)
    (memory_threshold : Q) : option t * t :=
  match limiter with
  | None =>
      let l := init max_concurrent memory_threshold in (Some l, l)
  | Some l => (limiter, l)
  end.

(** The number of [acquire] calls of a sequence. *)
Definition is_acquire (c : call) : bool :=
  match c with Acquire _ => true | Release _ => false end.

Definition acquires (calls : list call) : nat :=
  length (filter (λ c, is_acquire c = true) calls).

End RequestLimiter.

(** ** [src/cli_session_manager.py] *)

Module CLISessionManager.

(** An [asyncio.Task], as far as the registry uses it: [done()] and whether
    [cancel()] has been called on it. *)
Record Task := MkTask {
  done : bool;
  cancel_requested : bool
}.

(** The dataclass [CLISession].  [cancellation_token] is [None] or an
    [asyncio.Event], which is its flag. *)
Record CLISession := MkSession {
  cli_session_id : string;
  prompt : str;
  started_at : Z;
  model : option string;
  status : string;
  cancellation_token : option bool;
  task : option Task
}.

(** What the registry asks of its environment when it creates a session. *)
Record env := MkEnv {
  uuid4 : string;          (* [str(uuid.uuid4())] *)
  utcnow : Z;              (* [datetime.utcnow()] *)
  event_available : bool;  (* [asyncio.Event()] does not raise RuntimeError *)
  loop_running : bool      (* [asyncio.get_running_loop()] does not raise *)
}.

Definition set_status (st : string) (s : CLISession) : CLISession :=
  {| cli_session_id := cli_session_id s; prompt := prompt s;
     started_at := started_at s; model := model s; status := st;
     cancellation_token := cancellation_token s; task := task s |}.

Definition set_token (tok : option bool) (s : CLISession) : CLISession :=
  {| cli_session_id := cli_session_id s; prompt := prompt s;
     started_at := started_at s; model := model s; status := status s;
     cancellation_token := tok; task := task s |}.

Definition set_task (tk : option Task) (s : CLISession) : CLISession :=
  {| cli_session_id := cli_session_id s; prompt := prompt s;
     started_at := started_at s; model := model s; status := status s;
     cancellation_token := cancellation_token s; task := tk |}.

(** [CLISession.__post_init__]: a missing token is created when a loop is
    running (and the event can be built); a RuntimeError is swallowed. *)
Definition post_init (e : env) (s : CLISession) : CLISession :=
  match cancellation_token s with
  | Some _ => s
  | None =>
      if loop_running e && event_available e then set_token (Some false) s
      else s
  end.

(** [CLISession.cancel]: the event, when there is one, is set; the status
    becomes ["cancelled"]. *)
Definition cancel (s : CLISession) : CLISession :=
  set_status "cancelled"
    (match cancellation_token s with
     | Some _ => set_token (Some true) s
     | None => s
     end).

(** [CLISessionManager.create_session]. *)
Definition create_session (sessions : gmap string CLISession) (e : env)
    (prompt : str) (model : option string) (task : option Task)
  : gmap string CLISession * CLISession :=
  let cli_session_id := uuid4 e in
  let cancellation_token := if event_available e then Some false else None in
  let session :=
    post_init e
      {| cli_session_id := cli_session_id; prompt := prompt;
         started_at := utcnow e; model := model; status := "running";
         cancellation_token := cancellation_token; task := task |} in
  (<[cli_session_id := session]> sessions, session).

(** [CLISessionManager.get_session]. *)
Definition get_session (sessions : gmap string CLISession)
    (cli_session_id : string) : option CLISession :=
  sessions !! cli_session_id.

(** [CLISessionManager.cancel_session].  A session object is always truthy,
    so [if not session] is the test for an unknown id. *)
Definition cancel_session (sessions : gmap string CLISession)
    (cli_session_id : string) : gmap string CLISession * bool :=
  match sessions !! cli_session_id with
  | None => (sessions, false)
  | Some session =>
      if bool_decide (status session ≠ "running") then (sessions, false)
      else
        let session := cancel session in
        let session :=
          match task session with
          | Some tk =>
              if negb (done tk)
              then set_task (Some {| done := done tk;
                                     cancel_requested := true |}) session
              else session
          | None => session
          end in
        (<[cli_session_id := session]> sessions, true)
  end.

(** [CLISessionManager.complete_session]. *)
Definition complete_session (sessions : gmap string CLISession)
    (cli_session_id : string) (status : string) : gmap string CLISession :=
  match sessions !! cli_session_id with
  | Some session => <[cli_session_id := set_status status session]> sessions
  | None => sessions
  end.

(** [timedelta.total_seconds()] of a difference given in microseconds: the
    true division of two ints, [microseconds / 10**6], correctly rounded. *)
Definition total_seconds (delta : Z) : Q :=
  Binary64.round (inject_Z delta / inject_Z 1000000)%Q.

(** [age_hours = (now - session.started_at).total_seconds() / 3600], a
    float division. *)
Definition age_hours (now : Z) (s : CLISession) : Q :=
  Binary64.round (total_seconds (now - started_at s) / inject_Z 3600)%Q.

(** The test of the loop of [cleanup_old_sessions]:
    [status in ["completed", "cancelled", "failed"] and age_hours > max_age_hours]. *)
Definition old_session (now max_age_hours : Z) (s : CLISession) : bool :=
  bool_decide (status s ∈ ["completed"; "cancelled"; "failed"])
  && negb (Qle_bool (age_hours now s) (inject_Z max_age_hours)).

(** [CLISessionManager.cleanup_old_sessions]: the ids to remove are
    collected in a first loop over the items, deleted in a second one, and
    counted. *)
Definition cleanup_old_sessions (sessions : gmap string CLISession)
    (now max_age_hours : Z) : gmap string CLISession * nat :=
  let to_remove :=
    (filter (λ kv, old_session now max_age_hours kv.2 = true)
            (map_to_list sessions)).*1 in
  (foldl (λ m session_id, delete session_id m) sessions to_remove,
   length to_remove).

(** One entry of [CLISessionManager.get_stats]:
    [sum(1 for s in self.sessions.values() if s.status == st)]. *)
Definition count_status (sessions : gmap string CLISession) (st : string) : nat :=
  length (filter (λ kv, status kv.2 = st) (map_to_list sessions)).

(** [CLISessionManager.get_stats], as the tuple
    (total, running, completed, cancelled, failed). *)
Definition get_stats (sessions : gmap string CLISession)
  : nat * nat * nat * nat * nat :=
  (size sessions, count_status sessions "running",
   count_status sessions "completed", count_status sessions "cancelled",
   count_status sessions "failed").

(** The statuses that the specification calls terminal. *)
Definition terminal (st : string) : Prop :=
  st = "completed" ∨ st = "cancelled" ∨ st = "failed".


(** The dictionary returned by [CLISession.to_dict]. *)
Record session_dict := MkDict {
  dict_cli_session_id : string;
  dict_prompt : str;
  dict_started_at : string;
  dict_model : option string;
  dict_status : string;
  dict_duration_seconds : Q
}.

(** The preview of a prompt in [to_dict]:
    [prompt[:200] + "..." if len(prompt) > 200 else prompt]. *)
Definition prompt_preview (prompt : str) : str :=
  if bool_decide (200 < length prompt)%nat
  then take 200 prompt ++ ascii_str "..."
  else prompt.

Section ToDict.

(** [datetime.isoformat] is a parameter. *)
Variable isoformat : Z → string.

(** [CLISession.to_dict]; [now] is the [datetime.utcnow()] of the call. *)
Definition to_dict (now : Z) (s : CLISession) : session_dict :=
  {| dict_cli_session_id := cli_session_id s;
     dict_prompt := prompt_preview (prompt s);
     dict_started_at := isoformat (started_at s);
     dict_model := model s;
     dict_status := status s;
     dict_duration_seconds := total_seconds (now - started_at s) |}.

(** [CLISessionManager.list_sessions].  [if status_filter] is false for
    [None] and for the empty string: both list every session.  [clock k] is
    the [datetime.utcnow()] of the [to_dict] of the [k]-th session listed.
    The sessions come in the order of [map_to_list], which is not the
    insertion order of the dict. *)
Definition list_sessions (sessions : gmap string CLISession)
    (clock : nat → Z) (status_filter : option string) : list session_dict :=
  let all := (map_to_list sessions).*2 in
  let selected :=
    match status_filter with
    | Some f =>
        if bool_decide (f ≠ "") then filter (λ s, status s = f) all else all
    | None => all
    end in
  imap (λ k s, to_dict (clock k) s) selected.

End ToDict.

(** The statuses that the comment of the field [status] lists. *)
Definition known_status (st : string) : Prop :=
  st = "running" ∨ terminal st.

(** Every session of the registry has one of the four listed statuses. *)
Definition known_statuses (sessions : gmap string CLISession) : Prop :=
  ∀ i s, sessions !! i = Some s → known_status (status s).

(** Every session of the registry is stored under its own id. *)
Definition keyed_by_id (sessions : gmap string CLISession) : Prop :=
  ∀ i s, sessions !! i = Some s → cli_session_id s = i.

(** The cancellation event of the session exists and is set. *)
Definition token_set (s : CLISession) : Prop :=
  cancellation_token s = Some true.

End CLISessionManager.

(** ** [src/session_manager.py]

    The module itself is not among the sources; its tests
    ([tests/unit/test_session_manager.py]) and the specification (sections 3
    and 4.3) are.  Every definition of this part is modelled from them. *)

Module SessionManager.

(** Modelled from the spec: [models.Message] is missing; the tests build it
    from a role and a content. *)
Record Message := MkMessage {
  role : string;
  content : string
}.

(** Modelled from the spec: the dataclass [Session] is missing; its fields
    are those of the ConversationSession of section 3, under the names the
    tests use. *)
Record Session := MkSession {
  session_id : string;
  messages : list Message;
  created_at : Z;
  last_accessed : Z;
  expires_at : Z
}.

(** Modelled from the spec: the constructor [SessionManager(default_ttl_hours,
    cleanup_interval_minutes)] is missing; the tests read these two fields and
    [sessions], the store. *)
Record t := Build {
  default_ttl_hours : Z;
  cleanup_interval_minutes : Z;
  sessions : gmap string Session
}.

(** Modelled from the spec: [SessionManager.__init__] is missing; the tests
    give its defaults, one hour and five minutes, and the empty store. *)
Definition init (default_ttl_hours cleanup_interval_minutes : Z) : t :=
  {| default_ttl_hours := default_ttl_hours;
     cleanup_interval_minutes := cleanup_interval_minutes;
     sessions := ∅ |}.

(** Modelled from the spec: the configured TTL as a duration, in
    microseconds ([timedelta(hours=default_ttl_hours)]). *)
Definition ttl (self : t) : Z := default_ttl_hours self * 3600 * 1000000.

Definition with_sessions (self : t) (m : gmap string Session) : t :=
  {| default_ttl_hours := default_ttl_hours self;
     cleanup_interval_minutes := cleanup_interval_minutes self;
     sessions := m |}.

(** Modelled from the spec: the creation of a [Session] is missing; a new
    session is empty, created and last accessed now, and expires one TTL
    later. *)
Definition new_session (ttl now : Z) (key : string) : Session :=
  {| session_id := key; messages := [];
     created_at := now; last_accessed := now; expires_at := now + ttl |}.

(** Modelled from the spec: [Session.touch] is missing; "every touch resets
    expiration to now + TTL", and the access time is recorded. *)
Definition touch (ttl now : Z) (s : Session) : Session :=
  {| session_id := session_id s; messages := messages s;
     created_at := created_at s; last_accessed := now;
     expires_at := now + ttl |}.

(** Modelled from the spec: [Session.add_messages] is missing; the messages
    are appended in arrival order and the session is touched. *)
Definition add_messages (ttl now : Z) (msgs : list Message) (s : Session)
  : Session :=
  touch ttl now
    {| session_id := session_id s; messages := messages s ++ msgs;
       created_at := created_at s; last_accessed := last_accessed s;
       expires_at := expires_at s |}.

(** Modelled from the spec: [Session.is_expired] is missing; a session is
    expired when it is observed past its expiration time. *)
Definition is_expired (now : Z) (s : Session) : bool :=
  bool_decide (expires_at s < now).

(** Modelled from the spec: [SessionManager.get_or_create_session] is
    missing; an absent or expired key gets a new empty session, a present
    unexpired one is touched and returned. *)
Definition get_or_create_session (self : t) (now : Z) (key : string)
  : t * Session :=
  match sessions self !! key with
  | Some s =>
      if is_expired now s then
        let s' := new_session (ttl self) now key in
        (with_sessions self (<[key := s']> (sessions self)), s')
      else
        let s' := touch (ttl self) now s in
        (with_sessions self (<[key := s']> (sessions self)), s')
  | None =>
      let s' := new_session (ttl self) now key in
      (with_sessions self (<[key := s']> (sessions self)), s')
  end.

(** Modelled from the spec: [SessionManager.get_session] is missing; like
    the above without creation, and an expired session is deleted by the
    read, which answers absent. *)
Definition get_session (self : t) (now : Z) (key : string)
  : t * option Session :=
  match sessions self !! key with
  | Some s =>
      if is_expired now s then
        (with_sessions self (delete key (sessions self)), None)
      else
        let s' := touch (ttl self) now s in
        (with_sessions self (<[key := s']> (sessions self)), Some s')
  | None => (self, None)
  end.

(** Modelled from the spec: [SessionManager.delete_session] is missing. *)
Definition delete_session (self : t) (key : string) : t * bool :=
  match sessions self !! key with
  | Some _ => (with_sessions self (delete key (sessions self)), true)
  | None => (self, false)
  end.

(** Modelled from the spec: the background sweep is missing; it deletes
    every entry whose expiration has passed. *)
Definition cleanup_expired_sessions (self : t) (now : Z) : t :=
  with_sessions self (filter (λ kv, is_expired now kv.2 = false) (sessions self)).

(** Modelled from the spec: [SessionManager.process_messages] is missing;
    without a key the messages come back as they are, with no key; with a
    key they are appended to the resolved session, and the whole history
    (here its value on return) comes back with the key. *)
Definition process_messages (self : t) (now : Z) (new_messages : list Message)
    (key : option string) : t * (list Message * option string) :=
  match key with
  | None => (self, (new_messages, None))
  | Some k =>
      let '(self1, s) := get_or_create_session self now k in
      let s' := add_messages (ttl self) now new_messages s in
      (with_sessions self1 (<[k := s']> (sessions self1)),
       (messages s', Some k))
  end.

(** Modelled from the spec: [SessionManager.add_assistant_response] is
    missing; nothing happens without a key, with one the message is appended
    to the resolved session. *)
Definition add_assistant_response (self : t) (now : Z) (key : option string)
    (assistant_message : Message) : t :=
  match key with
  | None => self
  | Some k =>
      let '(self1, s) := get_or_create_session self now k in
      let s' := add_messages (ttl self) now [assistant_message] s in
      with_sessions self1 (<[k := s']> (sessions self1))
  end.

End SessionManager.

(** ** Concrete values for the examples *)

Module Examples.

(** Memory samplings of 50 and 95 per cent of 16 GiB, as in the fixtures of
    [tests/unit/test_request_limiter.py]. *)
Definition memory_ok : outcome RequestLimiter.svmem :=
  Return (RequestLimiter.Svmem (50 # 1) (8 * 1024 ^ 3) (16 * 1024 ^ 3)).
Definition memory_high : outcome RequestLimiter.svmem :=
  Return (RequestLimiter.Svmem (95 # 1) (15 * 1024 ^ 3) (16 * 1024 ^ 3)).

(** A stand-in for the two renderings of floats. *)
Definition render_numerator (q : Q) : string := pretty (Qnum q).

(** One hour, in microseconds. *)
Definition hour : Z := 3600 * 1000000.

(** The environment of a [create_session] that draws the id [id] at the
    instant [now], inside a running event loop. *)
Definition env_at (id : string) (now : Z) : CLISessionManager.env :=
  CLISessionManager.MkEnv id now true true.

(** A registry with one session, just created. *)
Definition registry_one : gmap string CLISessionManager.CLISession :=
  (CLISessionManager.create_session ∅ (env_at "a" 0)
     (ascii_str "long task") None None).1.

(** A registry with three sessions: ["a"], started at 0 and completed;
    ["b"], started at 0 and still running; ["c"], started two hours later
    and failed. *)
Definition registry_three : gmap string CLISessionManager.CLISession :=
  let r := CLISessionManager.complete_session registry_one "a" "completed" in
  let r := (CLISessionManager.create_session r (env_at "b" 0)
              (ascii_str "research") None None).1 in
  let r := (CLISessionManager.create_session r (env_at "c" (2 * hour))
              (ascii_str "summary") None None).1 in
  CLISessionManager.complete_session r "c" "failed".

(** A store with a TTL of one hour and one session, which has received one
    message at instant 0. *)
Definition store_expired : SessionManager.t :=
  (SessionManager.process_messages (SessionManager.init 1 5) 0
     [SessionManager.MkMessage "user" "old"] (Some "expired-session")).1.

(** The same store two hours later, when the first session has expired and
    two other sessions have received one and two messages. *)
Definition store_three : SessionManager.t :=
  let m := (SessionManager.process_messages store_expired (2 * hour)
              [SessionManager.MkMessage "user" "test1"] (Some "session-1")).1 in
  (SessionManager.process_messages m (2 * hour)
     [SessionManager.MkMessage "user" "test2";
      SessionManager.MkMessage "assistant" "response2"] (Some "session-2")).1.

End Examples.

(** * Properties *)

(** ** The admission controller *)

Section RequestLimiterProperties.

Import RequestLimiter.

Variable format_1f : Q → string.
Variable format_float : Q → string.

Abbreviation can_accept_request := (can_accept_request format_1f format_float).
Abbreviation dispatch_enter := (dispatch_enter format_1f format_float).
Abbreviation run_step := (run_step format_1f format_float).
Abbreviation run_steps := (run_steps format_1f format_float).

Lemma can_accept_request_full (self : t) (vm : outcome svmem) :
  max_concurrent self ≤ active_requests self →
  can_accept_request self vm
  = Return (false, Some (concurrency_reason (active_requests self)
                                            (max_concurrent self))).
Proof.
  intros Hfull. unfold RequestLimiter.can_accept_request.
  by rewrite bool_decide_eq_true_2.
Qed.

Lemma can_accept_request_allowed_inv (self : t) (vm : outcome svmem) r :
  can_accept_request self vm = Return (true, r) →
  active_requests self < max_concurrent self.
Proof.
  unfold RequestLimiter.can_accept_request. case_bool_decide as Hfull.
  - discriminate.
  - intros _. lia.
Qed.

Lemma acquire_fields (self : t) (vm : outcome svmem) :
  active_requests (acquire self vm).1 = active_requests self + 1
  ∧ max_concurrent (acquire self vm).1 = max_concurrent self.
Proof. done. Qed.

Lemma release_fields (self : t) (vm : outcome svmem) :
  active_requests (release self vm).1 = Z.max 0 (active_requests self - 1)
  ∧ max_concurrent (release self vm).1 = max_concurrent self.
Proof. done. Qed.

Lemma run_call_nonneg (self : t) (c : call) :
  0 ≤ active_requests self → 0 ≤ active_requests (run_call self c).
Proof. destruct c; simpl; lia. Qed.

Lemma run_calls_nonneg (calls : list call) (self : t) :
  0 ≤ active_requests self → 0 ≤ active_requests (run_calls self calls).
Proof.
  unfold run_calls. revert self.
  induction calls as [|c calls IH]; intros self Hself; simpl; [done|].
  apply IH. by apply run_call_nonneg.
Qed.

Lemma dispatch_enter_ceiling (self : t) path vm_check vm_stats vm_acquire :
  within_ceiling self →
  within_ceiling (dispatch_enter self path vm_check vm_stats vm_acquire).1
  ∧ max_concurrent (dispatch_enter self path vm_check vm_stats vm_acquire).1
    = max_concurrent self.
Proof.
  unfold within_ceiling. intros Hself.
  unfold RequestLimiter.dispatch_enter.
  case_bool_decide; [done|].
  destruct (can_accept_request self vm_check) as [[[] r]|e] eqn:Hcheck;
    [| by destruct vm_stats | done].
  apply can_accept_request_allowed_inv in Hcheck.
  destruct vm_acquire; simpl; split; lia.
Qed.

Lemma run_step_ceiling (self : t) (s : step) :
  within_ceiling self →
  within_ceiling (run_step self s)
  ∧ max_concurrent (run_step self s) = max_concurrent self.
Proof.
  destruct s as [path vm_check vm_stats vm_acquire|vm]; simpl.
  - apply dispatch_enter_ceiling.
  - unfold within_ceiling. simpl. lia.
Qed.

Lemma run_steps_ceiling (steps : list step) (self : t) :
  within_ceiling self →
  within_ceiling (run_steps self steps)
  ∧ max_concurrent (run_steps self steps) = max_concurrent self.
Proof.
  unfold RequestLimiter.run_steps. revert self.
  induction steps as [|s steps IH]; intros self Hself; simpl; [done|].
  destruct (run_step_ceiling self s Hself) as [Hinv Hmax].
  destruct (IH _ Hinv) as [Hinv' Hmax']. split; [done | congruence].
Qed.

(** C1 (as amended).  For every sequence of direct [acquire] and [release]
    calls on a new limiter the active count never goes negative; and for
    every sequence of steps of requests going through the middleware, where
    [acquire] is called only when [can_accept_request] has just allowed, the
    active count of a limiter configured with a maximum [M >= 0] stays in
    [[0, M]]. *)
Theorem active_requests_bounds (M : Z) (threshold : Q) :
  (∀ calls : list call,
     0 ≤ active_requests (run_calls (init M threshold) calls))
  ∧ (0 ≤ M →
     ∀ steps : list step,
       0 ≤ active_requests (run_steps (init M threshold) steps) ≤ M).
Proof.
  split.
  - intros calls. by apply run_calls_nonneg.
  - intros HM steps.
    destruct (run_steps_ceiling steps (init M threshold)) as [Hinv Hmax].
    + unfold within_ceiling. simpl. lia.
    + unfold within_ceiling in Hinv. rewrite Hmax in Hinv. exact Hinv.
Qed.

(** C2.  When the active count has reached the configured maximum,
    [can_accept_request] denies with the concurrency reason, the text
    "Max concurrent requests reached (a/m)" where [a] and [m] are the active
    count and the maximum in decimal, whatever the memory sampling would give
    (a utilisation above the threshold included); with max = 3 and
    active = 3 the result is exactly
    [(False, "Max concurrent requests reached (3/3)")]; and below the maximum
    with a memory utilisation below the threshold the result is
    [(True, None)]. *)
Theorem can_accept_request_decision (self : t) (vm : outcome svmem) :
  (max_concurrent self ≤ active_requests self →
     can_accept_request self vm
     = Return (false,
               Some ("Max concurrent requests reached ("
                     +:+ pretty (active_requests self) +:+ "/"
                     +:+ pretty (max_concurrent self) +:+ ")")))
  ∧ (max_concurrent self = 3 → active_requests self = 3 →
     can_accept_request self vm
     = Return (false, Some "Max concurrent requests reached (3/3)"))
  ∧ (∀ memory : svmem,
       active_requests self < max_concurrent self →
       vm = Return memory →
       (percent memory < memory_threshold self)%Q →
       can_accept_request self vm = Return (true, None)).
Proof.
  split; [exact (can_accept_request_full self vm)|]. split.
  - intros Hmax Hactive. rewrite can_accept_request_full by lia.
    by rewrite Hmax, Hactive.
  - intros memory Hfree -> Hmem. unfold RequestLimiter.can_accept_request.
    rewrite bool_decide_eq_false_2 by lia.
    destruct (Qle_bool (memory_threshold self) (percent memory)) eqn:Hle;
      [|done].
    apply Qle_bool_iff in Hle. by apply Qle_not_lt in Hle.
Qed.

(** C3 (as amended).  Memory is sampled only when the active count is below
    the maximum; when that sampling fails, [can_accept_request] neither
    allows nor denies: the exception of the sampling leaves the call.  At
    the maximum the call denies with the concurrency reason without
    sampling. *)
Theorem can_accept_request_sampling_failure (self : t) (e : exn) :
  (active_requests self < max_concurrent self →
     can_accept_request self (Raise e) = Raise e)
  ∧ (max_concurrent self ≤ active_requests self →
     can_accept_request self (Raise e)
     = Return (false, Some (concurrency_reason (active_requests self)
                                               (max_concurrent self)))).
Proof.
  split; [|apply can_accept_request_full].
  intros Hfree. unfold RequestLimiter.can_accept_request.
  by rewrite bool_decide_eq_false_2 by lia.
Qed.

End RequestLimiterProperties.

Import Examples.

(** C1, counterexample: on a limiter with maximum 3, four [acquire] calls in
    a row leave the active count at 4. *)
Lemma active_requests_exceeds_maximum :
  let self := RequestLimiter.run_calls (RequestLimiter.init 3 (90 # 1))
                (replicate 4 (RequestLimiter.Acquire memory_ok)) in
  RequestLimiter.active_requests self = 4
  ∧ ¬ (0 ≤ RequestLimiter.active_requests self
         ≤ RequestLimiter.max_concurrent self).
Proof. simpl. split; [reflexivity | lia]. Qed.

Lemma active_requests_bounds_witness :
  0 ≤ RequestLimiter.active_requests
        (RequestLimiter.run_steps render_numerator render_numerator
           (RequestLimiter.init 3 (90 # 1))
           (replicate 4 (RequestLimiter.Enter "/v1/chat/completions"
                           memory_ok memory_ok memory_ok))) ≤ 3.
Proof.
  apply (proj2 (active_requests_bounds render_numerator render_numerator
                  3 (90 # 1))).
  lia.
Defined.

Lemma can_accept_request_decision_witness :
  let full := RequestLimiter.run_calls (RequestLimiter.init 3 (90 # 1))
                (replicate 3 (RequestLimiter.Acquire memory_ok)) in
  let freed := RequestLimiter.run_calls full [RequestLimiter.Release memory_ok] in
  RequestLimiter.can_accept_request render_numerator render_numerator
    full memory_high
  = Return (false, Some "Max concurrent requests reached (3/3)")
  ∧ RequestLimiter.can_accept_request render_numerator render_numerator
      freed memory_ok
    = Return (true, None).
Proof.
  intros full freed. split.
  - apply (proj1 (proj2 (can_accept_request_decision
                           render_numerator render_numerator full memory_high)));
      reflexivity.
  - apply (proj2 (proj2 (can_accept_request_decision
                           render_numerator render_numerator freed memory_ok))
             (RequestLimiter.Svmem (50 # 1) (8 * 1024 ^ 3) (16 * 1024 ^ 3)));
      reflexivity.
Defined.

(** The concurrency reason names both counts, in decimal. *)
Example concurrency_reason_names_counts :
  RequestLimiter.concurrency_reason 12 10
  = "Max concurrent requests reached (12/10)"
  ∧ RequestLimiter.concurrency_reason 0 (-1)
    = "Max concurrent requests reached (0/-1)".
Proof. by vm_compute. Qed.

(** C3, counterexample: with no active request and a maximum of 3, a failing
    memory sampling makes [can_accept_request] raise; it returns no
    denial. *)
Lemma can_accept_request_not_fail_closed :
  RequestLimiter.can_accept_request render_numerator render_numerator
    (RequestLimiter.init 3 (90 # 1)) (Raise "OSError")
  = Raise "OSError"
  ∧ ¬ ∃ reason,
        RequestLimiter.can_accept_request render_numerator render_numerator
          (RequestLimiter.init 3 (90 # 1)) (Raise "OSError")
        = Return (false, reason).
Proof. split; [reflexivity|]. intros [reason H]. discriminate H. Qed.

Lemma can_accept_request_sampling_failure_witness :
  RequestLimiter.can_accept_request render_numerator render_numerator
    (RequestLimiter.init 3 (90 # 1)) (Raise "OSError")
  = Raise "OSError".
Proof.
  apply (proj1 (can_accept_request_sampling_failure
                  render_numerator render_numerator
                  (RequestLimiter.init 3 (90 # 1)) "OSError")).
  reflexivity.
Defined.

(** ** Binary64 rounding *)

Section Binary64Properties.

Import Binary64.

Lemma rne_bounds (n d : Z) :
  0 < d → (2 * rne n d - 1) * d ≤ 2 * n ≤ (2 * rne n d + 1) * d.
Proof.
  intros Hd. unfold rne.
  pose proof (Z.div_mod n d ltac:(lia)) as Hdm.
  pose proof (Z.mod_pos_bound n d Hd) as Hm.
  set (q := n `div` d) in *. set (r := n `mod` d) in *.
  repeat case_bool_decide; try destruct (Z.even q); nia.
Qed.

Lemma rne_le (n d k : Z) : 0 < d → n ≤ k * d → rne n d ≤ k.
Proof. intros Hd Hn. pose proof (rne_bounds n d Hd). nia. Qed.

Lemma rne_ge (n d k : Z) : 0 < d → k * d ≤ n → k ≤ rne n d.
Proof. intros Hd Hn. pose proof (rne_bounds n d Hd). nia. Qed.


Lemma rne_tie (n d k : Z) :
  0 < d → 2 * n = (2 * k + 1) * d →
  rne n d = if Z.even k then k else k + 1.
Proof.
  intros Hd Htie.
  assert (Hq : n `div` d = k).
  { symmetry. apply (Z.div_unique_pos n d k (n - k * d)); nia. }
  assert (Hr : 2 * (n `mod` d) = d).
  { pose proof (Z.div_mod n d ltac:(lia)). rewrite Hq in *. nia. }
  unfold rne. rewrite Hq.
  rewrite bool_decide_eq_false_2 by lia.
  by rewrite bool_decide_eq_false_2 by lia.
Qed.

Lemma rne_mono (n1 d1 n2 d2 : Z) :
  0 < d1 → 0 < d2 → n1 * d2 ≤ n2 * d1 → rne n1 d1 ≤ rne n2 d2.
Proof.
  intros Hd1 Hd2 Hle.
  pose proof (rne_bounds n1 d1 Hd1) as [Hl1 _].
  pose proof (rne_bounds n2 d2 Hd2) as [_ Hu2].
  destruct (decide (rne n1 d1 ≤ rne n2 d2)) as [|Hgt]; [done|exfalso].
  set (k1 := rne n1 d1) in *. set (k2 := rne n2 d2) in *.
  assert (H1 : (2 * k1 - 1) * (d1 * d2) ≤ 2 * (n1 * d2)) by nia.
  assert (H2 : 2 * (n2 * d1) ≤ (2 * k2 + 1) * (d1 * d2)) by nia.
  assert (Hpos : 0 < d1 * d2) by nia.
  assert (Hk : k1 = k2 + 1) by nia.
  assert (Ht1 : 2 * n1 = (2 * k2 + 1) * d1) by nia.
  assert (Ht2 : 2 * n2 = (2 * k2 + 1) * d2) by nia.
  pose proof (rne_tie n1 d1 k2 Hd1 Ht1) as E1.
  pose proof (rne_tie n2 d2 k2 Hd2 Ht2) as E2.
  fold k1 in E1. fold k2 in E2. destruct (Z.even k2); lia.
Qed.

Lemma div_le_cross (n1 d1 n2 d2 : Z) :
  0 < d1 → 0 < d2 → n1 * d2 ≤ n2 * d1 → n1 `div` d1 ≤ n2 `div` d2.
Proof.
  intros Hd1 Hd2 Hle. apply Z.div_le_lower_bound; [done|].
  pose proof (Z.mul_div_le n1 d1 Hd1). nia.
Qed.

Lemma ulp_exponent_nonneg (n d : Z) : 0 ≤ ulp_exponent n d.
Proof. unfold ulp_exponent. lia. Qed.

Lemma div_lt_pow2 (n d : Z) :
  0 ≤ n → 0 < d → n `div` d < 2 ^ (53 + ulp_exponent n d).
Proof.
  intros Hn Hd. unfold ulp_exponent.
  assert (Hf : 0 ≤ n `div` d) by (by apply Z.div_pos).
  destruct (decide (n `div` d = 0)) as [->|Hne].
  - apply Z.pow_pos_nonneg; cbn; lia.
  - apply Z.log2_lt_pow2; lia.
Qed.

Lemma pow2_le_div (n d : Z) :
  0 ≤ n → 0 < d → 0 < ulp_exponent n d →
  2 ^ (52 + ulp_exponent n d) ≤ n `div` d.
Proof.
  intros Hn Hd. unfold ulp_exponent. intros Hj.
  assert (Hf : 0 < n `div` d).
  { destruct (decide (0 < n `div` d)) as [|Hz]; [done|].
    assert (n `div` d = 0) as Hz' by (pose proof (Z.div_pos n d); lia).
    rewrite Hz' in Hj. cbn in Hj. lia. }
  replace (52 + Z.max 0 (Z.log2 (n `div` d) - 52)) with (Z.log2 (n `div` d))
    by lia.
  by apply Z.log2_spec.
Qed.

Lemma mantissa_le (n d : Z) :
  0 ≤ n → 0 < d → rne n (d * 2 ^ ulp_exponent n d) ≤ 2 ^ 53.
Proof.
  intros Hn Hd. pose proof (ulp_exponent_nonneg n d) as Hj.
  pose proof (div_lt_pow2 n d Hn Hd) as Hf.
  assert (Hp : 0 < 2 ^ ulp_exponent n d) by (apply Z.pow_pos_nonneg; lia).
  apply rne_le; [nia|].
  rewrite Z.pow_add_r in Hf by lia.
  pose proof (Z.div_mod n d ltac:(lia)). pose proof (Z.mod_pos_bound n d Hd).
  nia.
Qed.

Lemma mantissa_ge (n d : Z) :
  0 ≤ n → 0 < d → 0 < ulp_exponent n d →
  2 ^ 52 ≤ rne n (d * 2 ^ ulp_exponent n d).
Proof.
  intros Hn Hd Hj. pose proof (pow2_le_div n d Hn Hd Hj) as Hf.
  assert (Hp : 0 < 2 ^ ulp_exponent n d) by (apply Z.pow_pos_nonneg; lia).
  apply rne_ge; [nia|].
  rewrite Z.pow_add_r in Hf by lia.
  pose proof (Z.mul_div_le n d Hd). nia.
Qed.

Lemma round_grid_nonneg (n d : Z) : 0 ≤ n → 0 < d → 0 ≤ round_grid n d.
Proof.
  intros Hn Hd. unfold round_grid. pose proof (ulp_exponent_nonneg n d).
  assert (Hp : 0 < 2 ^ ulp_exponent n d) by (apply Z.pow_pos_nonneg; lia).
  assert (0 ≤ rne n (d * 2 ^ ulp_exponent n d)) by (apply rne_ge; nia).
  nia.
Qed.

Lemma round_grid_mono (n1 d1 n2 d2 : Z) :
  0 ≤ n1 → 0 < d1 → 0 < d2 → n1 * d2 ≤ n2 * d1 →
  round_grid n1 d1 ≤ round_grid n2 d2.
Proof.
  intros Hn1 Hd1 Hd2 Hle.
  assert (Hn2 : 0 ≤ n2) by nia.
  pose proof (div_le_cross n1 d1 n2 d2 Hd1 Hd2 Hle) as Hdiv.
  assert (Hj : ulp_exponent n1 d1 ≤ ulp_exponent n2 d2).
  { unfold ulp_exponent. pose proof (Z.log2_le_mono _ _ Hdiv). lia. }
  pose proof (ulp_exponent_nonneg n1 d1) as Hj1.
  unfold round_grid.
  set (j1 := ulp_exponent n1 d1) in *. set (j2 := ulp_exponent n2 d2) in *.
  assert (Hp1 : 0 < 2 ^ j1) by (apply Z.pow_pos_nonneg; lia).
  assert (Hp2 : 0 < 2 ^ j2) by (apply Z.pow_pos_nonneg; lia).
  destruct (decide (j1 = j2)) as [Heq|Hne].
  - rewrite <-Heq. apply Z.mul_le_mono_nonneg_r; [lia|].
    apply rne_mono; nia.
  - pose proof (mantissa_le n1 d1 Hn1 Hd1) as Hm1. fold j1 in Hm1.
    pose proof (mantissa_ge n2 d2 Hn2 Hd2 ltac:(lia)) as Hm2. fold j2 in Hm2.
    assert (Hpow : 2 ^ 53 * 2 ^ j1 ≤ 2 ^ 52 * 2 ^ j2).
    { rewrite <-!Z.pow_add_r by lia. apply Z.pow_le_mono_r; lia. }
    nia.
Qed.


Lemma round_mono (x y : Q) : (x <= y)%Q → (round x <= round y)%Q.
Proof.
  unfold Qle, round. cbn [Qnum Qden]. intros Hle.
  apply Z.mul_le_mono_nonneg_r; [done|].
  assert (Hp : 0 < 2 ^ 1074) by (apply Z.pow_pos_nonneg; lia).
  set (P := 2 ^ 1074) in *.
  assert (Hdx : 0 < Z.pos (Qden x)) by done.
  assert (Hdy : 0 < Z.pos (Qden y)) by done.
  repeat case_bool_decide.
  - apply round_grid_mono; nia.
  - nia.
  - pose proof (round_grid_nonneg (- (Qnum x * P)) (Z.pos (Qden x))).
    pose proof (round_grid_nonneg (Qnum y * P) (Z.pos (Qden y))). lia.
  - apply Z.opp_le_mono. rewrite !Z.opp_involutive.
    apply round_grid_mono; nia.
Qed.




End Binary64Properties.

(** ** The execution-session registry *)

Section CLISessionManagerProperties.

Import CLISessionManager.

Implicit Types sessions : gmap string CLISession.
Implicit Types s : CLISession.

Lemma terminal_not_running (st : string) : terminal st → st ≠ "running".
Proof. by intros [-> | [-> | ->]]. Qed.


Lemma total_seconds_mono (d1 d2 : Z) :
  d1 ≤ d2 → (total_seconds d1 <= total_seconds d2)%Q.
Proof.
  intros Hd. apply round_mono.
  unfold Qle, Qdiv, Qmult, Qinv, inject_Z. simpl. lia.
Qed.

Lemma age_hours_mono (now now' : Z) s :
  now' ≤ now → (age_hours now' s <= age_hours now s)%Q.
Proof.
  intros Hnow. apply round_mono.
  apply Qmult_le_compat_r; [apply total_seconds_mono; lia|done].
Qed.





Lemma foldl_delete_lookup {A} (ks : list string) (m : gmap string A) (i : string) :
  foldl (λ m k, delete k m) m ks !! i
  = if decide (i ∈ ks) then None else m !! i.
Proof.
  revert m. induction ks as [|k ks IH]; intros m; cbn [foldl].
  - destruct (decide (i ∈ [])) as [Hin|_]; [by apply elem_of_nil in Hin | done].
  - rewrite IH.
    destruct (decide (i ∈ ks)) as [Hin|Hnin],
             (decide (i ∈ k :: ks)) as [Hin'|Hnin']; try done.
    + exfalso. apply Hnin'. by right.
    + apply elem_of_cons in Hin' as [->|?]; [apply lookup_delete_eq | done].
    + apply lookup_delete_ne. intros ->. apply Hnin'. by left.
Qed.

Lemma to_remove_elem_of sessions (now max_age_hours : Z) (i : string) :
  i ∈ (filter (λ kv, old_session now max_age_hours kv.2 = true)
              (map_to_list sessions)).*1
  ↔ ∃ s, sessions !! i = Some s ∧ old_session now max_age_hours s = true.
Proof.
  rewrite list_elem_of_fmap. split.
  - intros [[k s] [-> [Hold Hin]%list_elem_of_filter]].
    apply elem_of_map_to_list in Hin. eauto.
  - intros [s [Hs Hold]]. exists (i, s). split; [done|].
    apply list_elem_of_filter. split; [done|]. by apply elem_of_map_to_list.
Qed.

Lemma cleanup_old_sessions_lookup sessions (now max_age_hours : Z) (i : string) :
  (cleanup_old_sessions sessions now max_age_hours).1 !! i
  = s ← sessions !! i;
    if old_session now max_age_hours s then None else Some s.
Proof.
  unfold cleanup_old_sessions. cbn [fst]. rewrite foldl_delete_lookup.
  destruct (decide (i ∈ _)) as [Hin|Hnin].
  - apply to_remove_elem_of in Hin as [s [-> Hold]]. simpl. by rewrite Hold.
  - destruct (sessions !! i) as [s|] eqn:Hs; [|done]. simpl.
    destruct (old_session now max_age_hours s) eqn:Hold; [|done].
    exfalso. apply Hnin, to_remove_elem_of. eauto.
Qed.

Lemma cleanup_old_sessions_filter sessions (now max_age_hours : Z) :
  (cleanup_old_sessions sessions now max_age_hours).1
  = filter (λ kv, ¬ old_session now max_age_hours kv.2 = true) sessions.
Proof.
  apply map_eq. intros i.
  rewrite cleanup_old_sessions_lookup, map_lookup_filter.
  destruct (sessions !! i) as [s|]; [|done]. simpl.
  destruct (old_session now max_age_hours s) eqn:Hold.
  - by rewrite option_guard_False by (intros Hn; by apply Hn).
  - by rewrite option_guard_True by discriminate.
Qed.

Lemma size_filter_to_list {A} (P : string * A → Prop) `{!∀ x, Decision (P x)}
    (m : gmap string A) :
  size (filter P m) = length (filter P (map_to_list m)).
Proof.
  rewrite <-length_map_to_list, map_filter_alt.
  apply Permutation_length, map_to_list_to_map.
  eapply sublist_NoDup; [apply (NoDup_fst_map_to_list m)|].
  apply fmap_sublist, sublist_filter.
Qed.

Lemma cleanup_old_sessions_count sessions (now max_age_hours : Z) :
  ((cleanup_old_sessions sessions now max_age_hours).2
   + size (cleanup_old_sessions sessions now max_age_hours).1)%nat
  = size sessions.
Proof.
  rewrite cleanup_old_sessions_filter, size_filter_to_list.
  unfold cleanup_old_sessions. cbn [snd]. rewrite length_fmap.
  rewrite <-length_app, <-length_map_to_list.
  apply Permutation_length, filter_app_complement.
Qed.

Lemma cancel_session_lookup_ne sessions (i j : string) :
  i ≠ j → (cancel_session sessions i).1 !! j = sessions !! j.
Proof.
  intros Hne. unfold cancel_session.
  destruct (sessions !! i) as [s|]; [|done].
  case_bool_decide; [done|]. cbn [fst]. by rewrite lookup_insert_ne.
Qed.

Lemma cancel_session_not_running sessions (i : string) s :
  sessions !! i = Some s → status s ≠ "running" →
  cancel_session sessions i = (sessions, false).
Proof.
  intros Hs Hst. unfold cancel_session. rewrite Hs.
  by rewrite bool_decide_eq_true_2.
Qed.

Lemma cancel_session_running sessions (i : string) s :
  sessions !! i = Some s → status s = "running" →
  ∃ s', cancel_session sessions i = (<[i := s']> sessions, true)
        ∧ status s' = "cancelled".
Proof.
  intros Hs Hst. unfold cancel_session. rewrite Hs.
  rewrite bool_decide_eq_false_2 by (by intros Hne; apply Hne).
  eexists. split; [reflexivity|].
  destruct s as [? ? ? ? ? tok [[[] ?]|]]; by destruct tok.
Qed.

(** C4 (as amended).  Every session is created running, whatever the
    registry; [cancel_session] moves a running session to cancelled; once
    the status of a session is terminal, [cancel_session] (on any id),
    [cleanup_old_sessions] (for a session it keeps) and [create_session]
    (under a new id) leave the session as it is.  [complete_session] sets
    the status it is given whatever the current one: the last call wins,
    also on a session that is already terminal. *)
Theorem status_transitions sessions :
  (∀ e p mo tk,
     status (create_session sessions e p mo tk).2 = "running"
     ∧ (create_session sessions e p mo tk).1 !! uuid4 e
       = Some (create_session sessions e p mo tk).2)
  ∧ ∀ (i : string) s,
      sessions !! i = Some s →
      (status s = "running" →
       ∃ s', (cancel_session sessions i).1 !! i = Some s'
             ∧ status s' = "cancelled")
      ∧ (terminal (status s) →
         (∀ j, (cancel_session sessions j).1 !! i = Some s)
         ∧ (∀ now max_age_hours,
              (cleanup_old_sessions sessions now max_age_hours).1 !! i = Some s
              ∨ (cleanup_old_sessions sessions now max_age_hours).1 !! i = None)
         ∧ (∀ e p mo tk, sessions !! uuid4 e = None →
              (create_session sessions e p mo tk).1 !! i = Some s))
      ∧ (∀ st, complete_session sessions i st !! i = Some (set_status st s)
               ∧ ∀ j, j ≠ i →
                      complete_session sessions i st !! j = sessions !! j).
Proof.
  split.
  { intros e p mo tk. split.
    - unfold create_session. cbn [snd]. unfold post_init. cbn.
      by destruct (event_available e), (loop_running e).
    - unfold create_session. cbn [fst snd]. apply lookup_insert_eq. }
  intros i s Hs. repeat split.
  - intros Hrun.
    destruct (cancel_session_running sessions i s Hs Hrun) as [s' [-> Hst]].
    exists s'. split; [apply lookup_insert_eq | done].
  - intros j. destruct (decide (j = i)) as [->|Hne].
    + rewrite (cancel_session_not_running sessions i s Hs); [done|].
      by apply terminal_not_running.
    + by rewrite cancel_session_lookup_ne.
  - intros now max_age_hours. rewrite cleanup_old_sessions_lookup, Hs. simpl.
    destruct (old_session now max_age_hours s); auto.
  - intros e p mo tk Hfresh. unfold create_session. cbn [fst].
    rewrite lookup_insert_ne; [done|]. intros Heq. congruence.
  - unfold complete_session. rewrite Hs. apply lookup_insert_eq.
  - intros j Hne. unfold complete_session. rewrite Hs.
    by rewrite lookup_insert_ne.
Qed.

(** C5.  On a session whose status is terminal, and on an unknown id,
    [cancel_session] returns [False] and leaves the registry, hence the
    status of the session, as it is; the call has no other result. *)
Theorem cancel_session_terminal_or_unknown sessions (i : string) :
  (sessions !! i = None
   ∨ ∃ s, sessions !! i = Some s ∧ terminal (status s)) →
  cancel_session sessions i = (sessions, false).
Proof.
  intros [Hnone|[s [Hs Hterm]]].
  - unfold cancel_session. by rewrite Hnone.
  - eapply cancel_session_not_running; [done|]. by apply terminal_not_running.
Qed.


End CLISessionManagerProperties.

(** C4, counterexample: a session is created and completed; a second
    [complete_session], with the status ["failed"], changes its terminal
    status. *)
Lemma complete_session_overwrites_terminal :
  let r1 := CLISessionManager.complete_session registry_one "a" "completed" in
  let r2 := CLISessionManager.complete_session r1 "a" "failed" in
  CLISessionManager.status <$> r1 !! "a" = Some "completed"
  ∧ CLISessionManager.status <$> r2 !! "a" = Some "failed"
  ∧ ¬ (CLISessionManager.status <$> r2 !! "a"
       = CLISessionManager.status <$> r1 !! "a").
Proof. vm_compute. repeat split; discriminate. Qed.

Lemma status_transitions_witness :
  let r1 := CLISessionManager.complete_session registry_one "a" "completed" in
  CLISessionManager.status
    (CLISessionManager.create_session ∅ (env_at "a" 0)
       (ascii_str "long task") None None).2 = "running"
  ∧ ∃ s, r1 !! "a" = Some s
         ∧ CLISessionManager.terminal (CLISessionManager.status s)
         ∧ (CLISessionManager.cancel_session r1 "a").1 !! "a" = Some s
         ∧ CLISessionManager.complete_session r1 "a" "failed" !! "a"
           = Some (CLISessionManager.set_status "failed" s).
Proof.
  intros r1. split.
  { apply (proj1 (status_transitions ∅)). }
  destruct (r1 !! "a") as [s|] eqn:Hs; [|by vm_compute in Hs].
  assert (Hterm : CLISessionManager.terminal (CLISessionManager.status s)).
  { vm_compute in Hs. injection Hs as <-. by left. }
  exists s. split; [done|]. split; [done|].
  destruct (proj2 (status_transitions r1) "a" s Hs) as (_ & Hfrozen & Hcomplete).
  split.
  - apply (proj1 (Hfrozen Hterm)).
  - apply (proj1 (Hcomplete "failed")).
Defined.

Lemma cancel_session_terminal_or_unknown_witness :
  CLISessionManager.cancel_session registry_three "a" = (registry_three, false)
  ∧ CLISessionManager.cancel_session registry_three "unknown"
    = (registry_three, false).
Proof.
  split.
  - apply cancel_session_terminal_or_unknown. right.
    eexists. split; [vm_compute; reflexivity | by left].
  - apply cancel_session_terminal_or_unknown. left. by vm_compute.
Defined.



(** ** The conversation-session store *)

Section SessionManagerProperties.

Import SessionManager.

Implicit Types self : SessionManager.t.
Implicit Types s : Session.

Lemma get_or_create_session_stored self (now : Z) (key : string) :
  sessions (get_or_create_session self now key).1 !! key
  = Some (get_or_create_session self now key).2
  ∧ expires_at (get_or_create_session self now key).2 = now + ttl self
  ∧ ttl (get_or_create_session self now key).1 = ttl self.
Proof.
  unfold get_or_create_session.
  destruct (sessions self !! key) as [s|]; [destruct (is_expired now s)|];
    cbn [fst snd sessions with_sessions]; by rewrite lookup_insert_eq.
Qed.

(** C7.  A touch at time [t] sets the expiration of the session to exactly
    [t] plus the configured TTL, whatever the session and whatever [t];
    and so does every access of the store that touches a session:
    [get_or_create_session], a [get_session] that finds the session,
    [process_messages] and [add_assistant_response] with a key. *)
Theorem touch_slides_expiration self (t : Z) (key : string) s :
  expires_at (touch (ttl self) t s) = t + ttl self
  ∧ last_accessed (touch (ttl self) t s) = t
  ∧ expires_at (get_or_create_session self t key).2 = t + ttl self
  ∧ (∀ s', (get_session self t key).2 = Some s' →
           expires_at s' = t + ttl self
           ∧ sessions (get_session self t key).1 !! key = Some s')
  ∧ (∀ msgs, expires_at <$> sessions (process_messages self t msgs (Some key)).1 !! key
             = Some (t + ttl self))
  ∧ (∀ msg, expires_at <$> sessions (add_assistant_response self t (Some key) msg) !! key
            = Some (t + ttl self)).
Proof.
  split; [done|]. split; [done|].
  split; [apply get_or_create_session_stored|].
  split; [|split].
  - intros s'. unfold get_session.
    destruct (sessions self !! key) as [s0|]; [|done].
    destruct (is_expired t s0); [done|]. cbn [fst snd].
    intros [= <-]. split; [done|]. apply lookup_insert_eq.
  - intros msgs. unfold process_messages.
    destruct (get_or_create_session self t key) as [self1 s1].
    cbn [fst sessions with_sessions]. by rewrite lookup_insert_eq.
  - intros msg. unfold add_assistant_response.
    destruct (get_or_create_session self t key) as [self1 s1].
    cbn [sessions with_sessions]. by rewrite lookup_insert_eq.
Qed.

(** C8.  Without a conversation key, [process_messages] and
    [add_assistant_response] leave the store as it is (no entry is created,
    no session is touched), and [process_messages] returns the messages it
    was given together with no key. *)
Theorem stateless_mode_frame self (now : Z) (msgs : list Message) (msg : Message) :
  process_messages self now msgs None = (self, (msgs, None))
  ∧ add_assistant_response self now None msg = self.
Proof. done. Qed.

(** C9.  When the session stored under a key has passed its expiration
    time, [get_session] answers absent and deletes the entry: the key is no
    longer in the store afterwards (the other entries are untouched). *)
Theorem get_session_expired self (now : Z) (key : string) s :
  sessions self !! key = Some s →
  expires_at s < now →
  (get_session self now key).2 = None
  ∧ sessions (get_session self now key).1 !! key = None
  ∧ ∀ k, k ≠ key →
         sessions (get_session self now key).1 !! k = sessions self !! k.
Proof.
  intros Hs Hexp. unfold get_session. rewrite Hs.
  unfold is_expired. rewrite bool_decide_eq_true_2 by done.
  cbn [fst snd sessions with_sessions]. split; [done|]. split.
  - apply lookup_delete_eq.
  - intros k Hne. by apply lookup_delete_ne.
Qed.

End SessionManagerProperties.

(** The first scenario of section 8 of the specification for the store: with
    a TTL of one hour, key ["k"] receives "Hello" at [t0 = 0]; half an hour
    later [process_messages] returns two messages and the expiration is at 90
    minutes; at 91 minutes [get_session] answers absent. *)
Example conversation_scenario :
  let minute := 60 * 1000000 in
  let m0 := (SessionManager.process_messages (SessionManager.init 1 5) 0
               [SessionManager.MkMessage "user" "Hello"] (Some "k")).1 in
  let r := SessionManager.process_messages m0 (30 * minute)
             [SessionManager.MkMessage "user" "How are you?"] (Some "k") in
  length r.2.1 = 2%nat
  ∧ SessionManager.expires_at <$> SessionManager.sessions r.1 !! "k"
    = Some (90 * minute)
  ∧ (SessionManager.get_session r.1 (91 * minute) "k").2 = None.
Proof. by vm_compute. Qed.

Lemma touch_slides_expiration_witness :
  ∃ s', (SessionManager.get_session store_three (2 * hour + 1) "session-1").2
        = Some s'
        ∧ SessionManager.expires_at s' = 2 * hour + 1 + 1 * hour.
Proof.
  destruct (SessionManager.get_session store_three (2 * hour + 1) "session-1").2
    as [s'|] eqn:Hget; [|by vm_compute in Hget].
  exists s'. split; [done|].
  destruct (touch_slides_expiration store_three (2 * hour + 1) "session-1" s')
    as (_ & _ & _ & Hget' & _).
  apply (proj1 (Hget' s' Hget)).
Defined.

Lemma get_session_expired_witness :
  (SessionManager.get_session store_three (2 * hour + 1) "expired-session").2
  = None
  ∧ SessionManager.sessions
      (SessionManager.get_session store_three (2 * hour + 1) "expired-session").1
    !! "expired-session" = None.
Proof.
  destruct (SessionManager.sessions store_three !! "expired-session")
    as [s|] eqn:Hs; [|by vm_compute in Hs].
  destruct (get_session_expired store_three (2 * hour + 1) "expired-session" s Hs)
    as (Hnone & Hgone & _); [|done].
  vm_compute in Hs. injection Hs as <-. by vm_compute.
Defined.

(** ** Further properties of the admission controller *)

Section RequestLimiterFurther.

Import RequestLimiter.

Variable format_1f : Q → string.
Variable format_float : Q → string.

Lemma can_accept_below_ceiling (self : t) (vm : outcome svmem) :
  active_requests self < max_concurrent self →
  can_accept_request format_1f format_float self vm
  = match vm with
    | Raise e => Raise e
    | Return memory =>
        if Qle_bool (memory_threshold self) (percent memory)
        then Return (false, Some (memory_reason format_1f format_float
                                    (percent memory) (memory_threshold self)))
        else Return (true, None)
    end.
Proof.
  intros Hfree. unfold can_accept_request.
  by rewrite bool_decide_eq_false_2 by lia.
Qed.

Lemma run_calls_snoc (self : t) (calls : list call) (c : call) :
  run_calls self (calls ++ [c]) = run_call (run_calls self calls) c.
Proof. unfold run_calls. by rewrite foldl_app. Qed.

Lemma acquires_snoc (calls : list call) (c : call) :
  acquires (calls ++ [c])
  = (acquires calls + (if is_acquire c then 1 else 0))%nat.
Proof.
  unfold acquires. rewrite filter_app, length_app, filter_cons, filter_nil.
  destruct c; [rewrite decide_True by done | rewrite decide_False by done];
    done.
Qed.

(** X1.  [can_accept_request] allows exactly when the active count is below
    the maximum, memory could be sampled and its utilisation is below the
    threshold; an allowance never carries a reason. *)
Theorem can_accept_request_allows_iff (self : t) (vm : outcome svmem)
    (reason : option string) :
  can_accept_request format_1f format_float self vm = Return (true, reason)
  ↔ active_requests self < max_concurrent self
    ∧ (∃ memory, vm = Return memory
                 ∧ (percent memory < memory_threshold self)%Q)
    ∧ reason = None.
Proof.
  split.
  - intros Hallow.
    destruct (decide (active_requests self < max_concurrent self)) as [Hfree|Hfull].
    + rewrite can_accept_below_ceiling in Hallow by done.
      destruct vm as [memory|e]; [|done].
      destruct (Qle_bool (memory_threshold self) (percent memory)) eqn:Hle;
        [done|].
      injection Hallow as <-. split; [done|]. split; [|done].
      exists memory. split; [done|]. apply Qnot_le_lt. intros Hq.
      apply Qle_bool_iff in Hq. congruence.
    + rewrite can_accept_request_full in Hallow by lia. done.
  - intros (Hfree & (memory & -> & Hlt) & ->).
    rewrite can_accept_below_ceiling by done.
    destruct (Qle_bool (memory_threshold self) (percent memory)) eqn:Hle;
      [|done].
    apply Qle_bool_iff in Hle. by apply Qle_not_lt in Hle.
Qed.

(** X2.  Below the maximum, a memory utilisation that has reached the
    threshold (equality included) is denied with the memory reason. *)
Theorem can_accept_request_memory_denial (self : t) (memory : svmem) :
  active_requests self < max_concurrent self →
  (memory_threshold self <= percent memory)%Q →
  can_accept_request format_1f format_float self (Return memory)
  = Return (false, Some (memory_reason format_1f format_float
                           (percent memory) (memory_threshold self))).
Proof.
  intros Hfree Hle. rewrite can_accept_below_ceiling by done.
  apply Qle_bool_iff in Hle. by rewrite Hle.
Qed.

(** X3.  Along any sequence of direct [acquire] and [release] calls the
    lifetime total grows by exactly the number of [acquire] calls, and the
    configuration and the rejection counter are not touched. *)
Theorem run_calls_counters (self : t) (calls : list call) :
  total_requests (run_calls self calls)
  = total_requests self + Z.of_nat (acquires calls)
  ∧ rejected_requests (run_calls self calls) = rejected_requests self
  ∧ max_concurrent (run_calls self calls) = max_concurrent self
  ∧ memory_threshold (run_calls self calls) = memory_threshold self.
Proof.
  induction calls as [|c calls IH] using rev_ind.
  - cbn. repeat split; lia.
  - rewrite run_calls_snoc, acquires_snoc.
    destruct IH as (Ht & Hr & Hm & Hth). destruct c; cbn; repeat split; lia || done.
Qed.

(** X4.  From a state with a non-negative active count, after any sequence
    of direct calls the active count is at most the start plus the number
    of [acquire] calls, and at least the start plus the [acquire] calls
    minus the [release] calls (the floor at zero can only add). *)
Theorem run_calls_active_bounds (self : t) (calls : list call) :
  0 ≤ active_requests self →
  active_requests self + Z.of_nat (acquires calls)
    - (Z.of_nat (length calls) - Z.of_nat (acquires calls))
  ≤ active_requests (run_calls self calls)
  ≤ active_requests self + Z.of_nat (acquires calls).
Proof.
  intros Hself. induction calls as [|c calls IH] using rev_ind.
  - cbn. lia.
  - rewrite run_calls_snoc, acquires_snoc, length_app. cbn [length].
    destruct c; cbn; lia.
Qed.

(** X5.  On a new limiter, whatever is done to it by direct calls or by
    requests going through the middleware, the active count never exceeds
    the lifetime total and neither goes negative. *)
Theorem active_at_most_total (M : Z) (threshold : Q) :
  (∀ calls : list call,
     0 ≤ active_requests (run_calls (init M threshold) calls)
       ≤ total_requests (run_calls (init M threshold) calls))
  ∧ (∀ steps : list step,
       0 ≤ active_requests (run_steps format_1f format_float
                              (init M threshold) steps)
         ≤ total_requests (run_steps format_1f format_float
                             (init M threshold) steps)).
Proof.
  split.
  - intros calls. induction calls as [|c calls IH] using rev_ind; [done|].
    rewrite run_calls_snoc. destruct c; cbn; lia.
  - intros steps. induction steps as [|s steps IH] using rev_ind; [done|].
    unfold run_steps. rewrite foldl_app. cbn [foldl].
    fold (run_steps format_1f format_float (init M threshold) steps).
    set (self := run_steps format_1f format_float (init M threshold) steps) in *.
    destruct s as [path vm_check vm_stats vm_acquire|vm]; cbn [run_step].
    + unfold dispatch_enter. case_bool_decide; [done|].
      destruct (can_accept_request _ _ self vm_check) as [[[] r]|e];
        [|by destruct vm_stats|done].
      destruct vm_acquire; cbn; lia.
    + cbn. lia.
Qed.

(** X6.  One request through [dispatch] changes a limiter whose active
    count is not negative in one of four ways only: not at all (unlimited
    path, or the admission check raised); the rejection counter grows by
    one; the lifetime total grows by one and the active count is back where
    it was; or, when the memory sampling of [acquire] raised, the total and
    the active count both grow by one.  The configuration never changes. *)
Theorem dispatch_effect (self : t) (path : string)
    (vm_check vm_stats vm_acquire : outcome svmem)
    (call_next : outcome string) (vm_release : outcome svmem) :
  0 ≤ active_requests self →
  let self' := (dispatch format_1f format_float self path vm_check vm_stats
                  vm_acquire call_next vm_release).1 in
  max_concurrent self' = max_concurrent self
  ∧ memory_threshold self' = memory_threshold self
  ∧ (self' = self
     ∨ (rejected_requests self' = rejected_requests self + 1
        ∧ active_requests self' = active_requests self
        ∧ total_requests self' = total_requests self)
     ∨ (total_requests self' = total_requests self + 1
        ∧ active_requests self' = active_requests self
        ∧ rejected_requests self' = rejected_requests self)
     ∨ (total_requests self' = total_requests self + 1
        ∧ active_requests self' = active_requests self + 1
        ∧ rejected_requests self' = rejected_requests self
        ∧ ∃ e, vm_acquire = Raise e)).
Proof.
  intros Hself. unfold dispatch. case_bool_decide; [by auto|].
  destruct (can_accept_request _ _ self vm_check) as [[[] r]|e]; [| |by auto].
  - destruct vm_acquire as [m|e]; cbn.
    + destruct vm_release; cbn; repeat split; try done;
        right; right; left; repeat split; lia.
    + repeat split; try done. right; right; right. repeat split; eauto.
  - cbn. repeat split; try done. right; left. done.
Qed.

(** X7.  An admitted request whose memory samplings succeed gives back
    what the wrapped application produced, its exception included, and the
    slot is released in both cases: the active count is back where it was
    and the lifetime total has grown by one. *)
Theorem dispatch_releases (self : t) (path : string)
    (vm_check vm_stats : outcome svmem) (m_acquire m_release : svmem)
    (call_next : outcome string) (r : option string) :
  path ∉ unlimited_paths →
  0 ≤ active_requests self →
  can_accept_request format_1f format_float self vm_check = Return (true, r) →
  let result := dispatch format_1f format_float self path vm_check vm_stats
                  (Return m_acquire) call_next (Return m_release) in
  result.2 = match call_next with
             | Return body => Return (Upstream body)
             | Raise e => Raise e
             end
  ∧ active_requests result.1 = active_requests self
  ∧ total_requests result.1 = total_requests self + 1
  ∧ rejected_requests result.1 = rejected_requests self.
Proof.
  intros Hpath Hself Hallow. unfold dispatch.
  rewrite bool_decide_eq_false_2 by done. rewrite Hallow. cbn.
  repeat split. lia.
Qed.

(** X8.  At the maximum, a request on a limited path is answered with the
    503 response: the wrapped application is not entered, the rejection is
    counted before the statistics of the response are taken (so they
    include it), the suggested retry delay is 30 seconds, and neither the
    active count nor the lifetime total changes. *)
Theorem dispatch_rejects_at_ceiling (self : t) (path : string)
    (vm_check vm_acquire vm_release : outcome svmem) (m_stats : svmem)
    (call_next : outcome string) :
  path ∉ unlimited_paths →
  max_concurrent self ≤ active_requests self →
  let result := dispatch format_1f format_float self path vm_check
                  (Return m_stats) vm_acquire call_next vm_release in
  (∃ stats,
     result.2 = Return (ServiceUnavailable
                          (Some (concurrency_reason (active_requests self)
                                                    (max_concurrent self)))
                          30 stats)
     ∧ stats_rejected_requests stats = rejected_requests self + 1
     ∧ stats_active_requests stats = active_requests self)
  ∧ rejected_requests result.1 = rejected_requests self + 1
  ∧ active_requests result.1 = active_requests self
  ∧ total_requests result.1 = total_requests self.
Proof.
  intros Hpath Hfull. unfold dispatch.
  rewrite bool_decide_eq_false_2 by done.
  rewrite can_accept_request_full by done. cbn.
  repeat split. eexists. repeat split.
Qed.

(** X9.  When the admission check allows and the memory sampling inside
    [acquire] raises, [dispatch] raises that exception with the slot still
    taken: [acquire] is called before the [try], so no [release]
    follows. *)
Theorem dispatch_acquire_failure_keeps_slot (self : t) (path : string)
    (vm_check vm_stats vm_release : outcome svmem) (e : exn)
    (call_next : outcome string) (r : option string) :
  path ∉ unlimited_paths →
  can_accept_request format_1f format_float self vm_check = Return (true, r) →
  let result := dispatch format_1f format_float self path vm_check vm_stats
                  (Raise e) call_next vm_release in
  result.2 = Raise e
  ∧ active_requests result.1 = active_requests self + 1
  ∧ total_requests result.1 = total_requests self + 1.
Proof.
  intros Hpath Hallow. unfold dispatch.
  rewrite bool_decide_eq_false_2 by done. by rewrite Hallow.
Qed.

(** X10.  [get_limiter] builds the global limiter on the first call only:
    a later call returns that limiter, counters included, and ignores the
    configuration it is given. *)
Theorem get_limiter_singleton (limiter : option t) (m1 m2 : Z) (t1 t2 : Q) :
  let first := get_limiter limiter m1 t1 in
  get_limiter first.1 m2 t2 = (first.1, first.2)
  ∧ first.1 = Some first.2
  ∧ (limiter = None → first.2 = init m1 t1).
Proof. destruct limiter; cbn; repeat split; congruence. Qed.

End RequestLimiterFurther.

Lemma can_accept_request_memory_denial_witness :
  RequestLimiter.can_accept_request render_numerator render_numerator
    (RequestLimiter.init 3 (90 # 1))
    (Return (RequestLimiter.Svmem (90 # 1) 0 0))
  = Return (false,
            Some (RequestLimiter.memory_reason render_numerator render_numerator
                    (90 # 1) (90 # 1))).
Proof.
  apply (can_accept_request_memory_denial render_numerator render_numerator
           (RequestLimiter.init 3 (90 # 1)) (RequestLimiter.Svmem (90 # 1) 0 0)).
  - reflexivity.
  - by vm_compute.
Defined.

Lemma run_calls_active_bounds_witness :
  let calls := [RequestLimiter.Release memory_ok; RequestLimiter.Acquire memory_ok;
                RequestLimiter.Acquire memory_ok; RequestLimiter.Release memory_ok] in
  0 + 2 - (4 - 2)
  ≤ RequestLimiter.active_requests
      (RequestLimiter.run_calls (RequestLimiter.init 3 (90 # 1)) calls)
  ≤ 0 + 2.
Proof.
  intros calls.
  apply (run_calls_active_bounds (RequestLimiter.init 3 (90 # 1)) calls).
  reflexivity.
Defined.

Lemma dispatch_effect_witness :
  let self := RequestLimiter.init 3 (90 # 1) in
  let self' := (RequestLimiter.dispatch render_numerator render_numerator self
                  "/v1/chat/completions" memory_ok memory_ok memory_ok
                  (Raise "Test error") memory_ok).1 in
  RequestLimiter.max_concurrent self' = 3.
Proof.
  intros self self'.
  apply (proj1 (dispatch_effect render_numerator render_numerator self
                  "/v1/chat/completions" memory_ok memory_ok memory_ok
                  (Raise "Test error") memory_ok ltac:(reflexivity))).
Defined.

Lemma dispatch_releases_witness :
  let result := RequestLimiter.dispatch render_numerator render_numerator
                  (RequestLimiter.init 3 (90 # 1)) "/v1/chat/completions"
                  memory_ok memory_ok memory_ok (Raise "Test error") memory_ok in
  result.2 = Raise "Test error"
  ∧ RequestLimiter.active_requests result.1 = 0
  ∧ RequestLimiter.total_requests result.1 = 0 + 1
  ∧ RequestLimiter.rejected_requests result.1 = 0.
Proof.
  apply (dispatch_releases render_numerator render_numerator
           (RequestLimiter.init 3 (90 # 1)) "/v1/chat/completions"
           memory_ok memory_ok
           (RequestLimiter.Svmem (50 # 1) (8 * 1024 ^ 3) (16 * 1024 ^ 3))
           (RequestLimiter.Svmem (50 # 1) (8 * 1024 ^ 3) (16 * 1024 ^ 3))
           (Raise "Test error") None).
  - apply (proj1 (bool_decide_eq_false _)). reflexivity.
  - reflexivity.
  - reflexivity.
Defined.

Lemma dispatch_rejects_at_ceiling_witness :
  let full := RequestLimiter.run_calls (RequestLimiter.init 3 (90 # 1))
                (replicate 3 (RequestLimiter.Acquire memory_ok)) in
  RequestLimiter.rejected_requests
    (RequestLimiter.dispatch render_numerator render_numerator full
       "/v1/chat/completions" memory_ok memory_ok memory_ok
       (Return "completion_response") memory_ok).1 = 0 + 1.
Proof.
  intros full.
  apply (dispatch_rejects_at_ceiling render_numerator render_numerator full
           "/v1/chat/completions" memory_ok memory_ok memory_ok
           (RequestLimiter.Svmem (50 # 1) (8 * 1024 ^ 3) (16 * 1024 ^ 3))
           (Return "completion_response")).
  - apply (proj1 (bool_decide_eq_false _)). reflexivity.
  - by vm_compute.
Defined.

Lemma dispatch_acquire_failure_keeps_slot_witness :
  let result := RequestLimiter.dispatch render_numerator render_numerator
                  (RequestLimiter.init 3 (90 # 1)) "/v1/chat/completions"
                  memory_ok memory_ok (Raise "OSError")
                  (Return "completion_response") memory_ok in
  result.2 = Raise "OSError"
  ∧ RequestLimiter.active_requests result.1 = 0 + 1
  ∧ RequestLimiter.total_requests result.1 = 0 + 1.
Proof.
  apply (dispatch_acquire_failure_keeps_slot render_numerator render_numerator
           (RequestLimiter.init 3 (90 # 1)) "/v1/chat/completions"
           memory_ok memory_ok memory_ok "OSError"
           (Return "completion_response") None).
  - apply (proj1 (bool_decide_eq_false _)). reflexivity.
  - reflexivity.
Defined.

(** ** Further properties of the execution-session registry *)

Section CLISessionManagerFurther.

Import CLISessionManager.

Implicit Types sessions : gmap string CLISession.
Implicit Types s : CLISession.

Variable isoformat : Z → string.

(** X11.  The prompt shown by [to_dict] is the prompt itself when it has at
    most 200 code points; a longer prompt is cut to its first 200 code
    points followed by three dots, 203 code points in all.  The other
    fields of the session are shown as they are. *)
Theorem to_dict_prompt_preview (now : Z) s :
  let d := to_dict isoformat now s in
  (length (prompt s) ≤ 200 → dict_prompt d = prompt s)%nat
  ∧ ((200 < length (prompt s))%nat →
     length (dict_prompt d) = 203%nat
     ∧ dict_prompt d = take 200 (prompt s) ++ ascii_str "..."
     ∧ length (take 200 (prompt s)) = 200%nat
     ∧ prompt s = take 200 (prompt s) ++ drop 200 (prompt s))
  ∧ (length (dict_prompt d) ≤ 203)%nat
  ∧ dict_cli_session_id d = cli_session_id s
  ∧ dict_status d = status s
  ∧ dict_model d = model s.
Proof.
  unfold to_dict. cbn [dict_prompt dict_cli_session_id dict_status dict_model].
  unfold prompt_preview. split; [|split; [|split; [|done]]].
  - intros Hshort. rewrite bool_decide_eq_false_2; [done|lia].
  - intros Hlong. rewrite bool_decide_eq_true_2 by done.
    rewrite length_app, length_take.
    change (length (ascii_str "...")) with 3%nat.
    repeat split; [lia|lia|by rewrite take_drop].
  - case_bool_decide; [|lia].
    rewrite length_app, length_take.
    change (length (ascii_str "...")) with 3%nat. lia.
Qed.

Lemma filter_snd_fmap (P : CLISession → Prop) `{!∀ x, Decision (P x)}
    (l : list (string * CLISession)) :
  filter P (l.*2) = (filter (λ kv, P kv.2) l).*2.
Proof.
  induction l as [|kv l IH]; [done|].
  cbn [fmap list_fmap]. rewrite !filter_cons. cbn [snd].
  destruct (decide (P kv.2)); cbn; by rewrite IH.
Qed.

(** X12.  With a non-empty status filter, [list_sessions] lists sessions of
    that status only, as many as [get_stats] counts for it; with no filter,
    or with the empty string as filter, it lists every session of the
    registry. *)
Theorem list_sessions_filter sessions (clock : nat → Z) (f : string) :
  (f ≠ "" →
   (∀ d, d ∈ list_sessions isoformat sessions clock (Some f) →
         dict_status d = f)
   ∧ length (list_sessions isoformat sessions clock (Some f))
     = count_status sessions f)
  ∧ length (list_sessions isoformat sessions clock None) = size sessions
  ∧ list_sessions isoformat sessions clock (Some "")
    = list_sessions isoformat sessions clock None.
Proof.
  split; [|split].
  - intros Hf. unfold list_sessions. rewrite bool_decide_eq_true_2 by done.
    split.
    + intros d [k [s [-> Hk]]]%elem_of_lookup_imap.
      apply list_elem_of_lookup_2, list_elem_of_filter in Hk. by destruct Hk.
    + rewrite length_imap, filter_snd_fmap, length_fmap. done.
  - unfold list_sessions.
    by rewrite length_imap, length_fmap, length_map_to_list.
  - unfold list_sessions. by rewrite bool_decide_eq_false_2 by (by intros H; apply H).
Qed.

Lemma length_by_status (l : list (string * CLISession)) :
  Forall (λ kv, known_status (status kv.2)) l →
  length l
  = (length (filter (λ kv, status kv.2 = "running") l)
     + length (filter (λ kv, status kv.2 = "completed") l)
     + length (filter (λ kv, status kv.2 = "cancelled") l)
     + length (filter (λ kv, status kv.2 = "failed") l))%nat.
Proof.
  induction 1 as [|kv l Hkv _ IH]; [done|].
  rewrite !filter_cons. cbn [length]. rewrite IH.
  destruct Hkv as [Hst|[Hst|[Hst|Hst]]]; rewrite Hst;
    repeat case_decide; try done; cbn [length]; lia.
Qed.

(** X13.  When every session of the registry has one of the four listed
    statuses, the total of [get_stats] is the sum of its four counts. *)
Theorem get_stats_total sessions :
  known_statuses sessions →
  let '(total, running, completed, cancelled, failed) := get_stats sessions in
  total = (running + completed + cancelled + failed)%nat.
Proof.
  intros Hknown. unfold get_stats, count_status.
  rewrite <-length_map_to_list. apply length_by_status.
  apply Forall_forall. intros [i s] Hin.
  apply elem_of_map_to_list in Hin. by apply (Hknown i s).
Qed.

Lemma cancel_status (s : CLISession) :
  status (cancel s) = "cancelled"
  ∧ cli_session_id (cancel s) = cli_session_id s
  ∧ prompt (cancel s) = prompt s
  ∧ started_at (cancel s) = started_at s
  ∧ model (cancel s) = model s
  ∧ task (cancel s) = task s
  ∧ cancellation_token (cancel s)
    = (λ _, true) <$> cancellation_token s.
Proof. by destruct s as [? ? ? ? ? [b|] ?]. Qed.

Lemma cancel_session_cases sessions (i : string) :
  (cancel_session sessions i = (sessions, false)
   ∧ ∀ s, sessions !! i = Some s → status s ≠ "running")
  ∨ ∃ s s', sessions !! i = Some s ∧ status s = "running"
            ∧ cancel_session sessions i = (<[i := s']> sessions, true)
            ∧ status s' = "cancelled"
            ∧ cli_session_id s' = cli_session_id s
            ∧ prompt s' = prompt s
            ∧ started_at s' = started_at s
            ∧ model s' = model s
            ∧ cancellation_token s' = (λ _, true) <$> cancellation_token s
            ∧ task s'
              = (λ tk, if done tk then tk
                       else {| done := false; cancel_requested := true |})
                <$> task s.
Proof.
  unfold cancel_session. destruct (sessions !! i) as [s|] eqn:Hs.
  - case_bool_decide as Hst.
    + left. split; [done|]. by intros ? [= <-].
    + right. exists s. eexists. split; [done|].
      split; [done|].
      split; [reflexivity|].
      destruct (cancel_status s) as (? & ? & ? & ? & ? & Htask & ?).
      rewrite Htask. destruct (task s) as [[[] ?]|]; cbn; repeat split; done.
  - left. split; [done|]. by intros ? [=].
Qed.

(** X14.  The empty registry has only listed statuses, and
    [create_session], [cancel_session], [cleanup_old_sessions] and a
    [complete_session] with one of the four listed statuses keep it so. *)
Theorem known_statuses_preserved sessions :
  known_statuses ∅
  ∧ (known_statuses sessions →
     (∀ e p mo tk, known_statuses (create_session sessions e p mo tk).1)
     ∧ (∀ i, known_statuses (cancel_session sessions i).1)
     ∧ (∀ now max_age_hours,
          known_statuses (cleanup_old_sessions sessions now max_age_hours).1)
     ∧ (∀ i st, known_status st →
                known_statuses (complete_session sessions i st))).
Proof.
  split; [by intros i s; rewrite lookup_empty|].
  intros Hknown. split; [|split; [|split]].
  - intros e p mo tk j s. unfold create_session. cbn [fst].
    destruct (decide (uuid4 e = j)) as [<-|Hne].
    + rewrite lookup_insert_eq. intros [= <-]. left. unfold post_init. cbn.
      by destruct (event_available e), (loop_running e).
    + rewrite lookup_insert_ne by done. apply Hknown.
  - intros i j s.
    destruct (cancel_session_cases sessions i)
      as [[-> _]|(s0 & s' & _ & _ & -> & Hst & _)]; [apply Hknown|].
    cbn [fst]. destruct (decide (i = j)) as [<-|Hne].
    + rewrite lookup_insert_eq. intros [= <-]. right. by right; left.
    + rewrite lookup_insert_ne by done. apply Hknown.
  - intros now max_age_hours j s. rewrite cleanup_old_sessions_lookup.
    destruct (sessions !! j) as [s0|] eqn:Hs0; [|done]. cbn.
    destruct (old_session now max_age_hours s0); [done|].
    intros [= <-]. by apply (Hknown j).
  - intros i st Hst j s. unfold complete_session.
    destruct (sessions !! i) as [s0|] eqn:Hs0; [|apply Hknown].
    destruct (decide (i = j)) as [<-|Hne].
    + rewrite lookup_insert_eq. by intros [= <-].
    + rewrite lookup_insert_ne by done. apply Hknown.
Qed.

(** X15.  Every session of the registry is stored under its own id: this
    holds of the empty registry and is kept by [create_session],
    [cancel_session], [complete_session] (with any status) and
    [cleanup_old_sessions]. *)
Theorem keyed_by_id_preserved sessions :
  keyed_by_id ∅
  ∧ (keyed_by_id sessions →
     (∀ e p mo tk, keyed_by_id (create_session sessions e p mo tk).1)
     ∧ (∀ i, keyed_by_id (cancel_session sessions i).1)
     ∧ (∀ now max_age_hours,
          keyed_by_id (cleanup_old_sessions sessions now max_age_hours).1)
     ∧ (∀ i st, keyed_by_id (complete_session sessions i st))).
Proof.
  split; [by intros i s; rewrite lookup_empty|].
  intros Hkeyed. split; [|split; [|split]].
  - intros e p mo tk j s. unfold create_session. cbn [fst].
    destruct (decide (uuid4 e = j)) as [<-|Hne].
    + rewrite lookup_insert_eq. intros [= <-]. unfold post_init. cbn.
      by destruct (event_available e), (loop_running e).
    + rewrite lookup_insert_ne by done. apply Hkeyed.
  - intros i j s.
    destruct (cancel_session_cases sessions i)
      as [[-> _]|(s0 & s' & Hs0 & _ & -> & _ & Hid & _)]; [apply Hkeyed|].
    cbn [fst]. destruct (decide (i = j)) as [<-|Hne].
    + rewrite lookup_insert_eq. intros [= <-]. rewrite Hid. by apply Hkeyed.
    + rewrite lookup_insert_ne by done. apply Hkeyed.
  - intros now max_age_hours j s. rewrite cleanup_old_sessions_lookup.
    destruct (sessions !! j) as [s0|] eqn:Hs0; [|done]. cbn.
    destruct (old_session now max_age_hours s0); [done|].
    intros [= <-]. by apply Hkeyed.
  - intros i st j s. unfold complete_session.
    destruct (sessions !! i) as [s0|] eqn:Hs0; [|apply Hkeyed].
    destruct (decide (i = j)) as [<-|Hne].
    + rewrite lookup_insert_eq. intros [= <-]. cbn. by apply Hkeyed.
    + rewrite lookup_insert_ne by done. apply Hkeyed.
Qed.

(** X16.  On a running session [cancel_session] returns [True] and stores
    the session with the status cancelled, its event set when it has one,
    and its task asked to cancel when it has one that is not done (a task
    that is done is left alone); id, prompt, start time and model are
    kept, and no other session changes. *)
Theorem cancel_session_running_effect sessions (i : string) s :
  sessions !! i = Some s →
  status s = "running" →
  (cancel_session sessions i).2 = true
  ∧ (∃ s', (cancel_session sessions i).1 !! i = Some s'
           ∧ status s' = "cancelled"
           ∧ cancellation_token s' = (λ _, true) <$> cancellation_token s
           ∧ task s'
             = (λ tk, if done tk then tk
                      else {| done := false; cancel_requested := true |})
               <$> task s
           ∧ cli_session_id s' = cli_session_id s
           ∧ prompt s' = prompt s
           ∧ started_at s' = started_at s
           ∧ model s' = model s)
  ∧ ∀ j, j ≠ i → (cancel_session sessions i).1 !! j = sessions !! j.
Proof.
  intros Hs Hrun.
  destruct (cancel_session_cases sessions i)
    as [[_ Hnot]|(s0 & s' & Hs0 & _ & -> & ? & ? & ? & ? & ? & ? & ?)].
  { by destruct (Hnot s Hs). }
  assert (s0 = s) as -> by congruence. cbn [fst snd].
  split; [done|]. split.
  - exists s'. rewrite lookup_insert_eq. repeat split; done.
  - intros j Hne. by rewrite lookup_insert_ne.
Qed.

(** X17.  A second [cancel_session] on the same id returns [False] and
    changes nothing, whatever the first one did. *)
Theorem cancel_session_twice sessions (i : string) :
  cancel_session (cancel_session sessions i).1 i
  = ((cancel_session sessions i).1, false).
Proof.
  destruct (cancel_session_cases sessions i)
    as [[Heq Hnot]|(s0 & s' & _ & _ & Heq & Hst & _)]; rewrite Heq; cbn [fst].
  - done.
  - eapply cancel_session_not_running; [apply lookup_insert_eq|].
    by rewrite Hst.
Qed.

(** X18.  [cancel_session] returns [True] exactly when the id is that of a
    session whose status is running. *)
Theorem cancel_session_true_iff sessions (i : string) :
  (cancel_session sessions i).2 = true
  ↔ ∃ s, sessions !! i = Some s ∧ status s = "running".
Proof.
  destruct (cancel_session_cases sessions i)
    as [[Heq Hnot]|(s0 & s' & Hs0 & Hrun & Heq & _)]; rewrite Heq; cbn [snd].
  - split; [done|]. intros (s & Hs & Hrun). by destruct (Hnot s Hs).
  - split; [eauto|done].
Qed.

(** X19.  [cancel_session] and [complete_session] neither add nor remove a
    session: the ids of the registry, and so its size, stay the same. *)
Theorem cancel_complete_keep_ids sessions (i st : string) :
  dom (cancel_session sessions i).1 = dom sessions
  ∧ dom (complete_session sessions i st) = dom sessions
  ∧ size (cancel_session sessions i).1 = size sessions
  ∧ size (complete_session sessions i st) = size sessions.
Proof.
  assert (Hcancel : dom (cancel_session sessions i).1 = dom sessions).
  { destruct (cancel_session_cases sessions i)
      as [[-> _]|(s0 & s' & Hs0 & _ & -> & _)]; [done|].
    cbn [fst]. by apply dom_insert_lookup_L. }
  assert (Hcomplete : dom (complete_session sessions i st) = dom sessions).
  { unfold complete_session. destruct (sessions !! i) eqn:Hs; [|done].
    by apply dom_insert_lookup_L. }
  repeat split; try done.
  - by rewrite <-!size_dom, Hcancel.
  - by rewrite <-!size_dom, Hcomplete.
Qed.

(** X20.  Once the cancellation event of a session is set, no
    [cancel_session] or [complete_session] (on any id) clears it, and
    [cleanup_old_sessions] keeps it set in a session it keeps. *)
Theorem token_set_stable sessions (i : string) s :
  sessions !! i = Some s →
  token_set s →
  (∀ j, ∃ s', (cancel_session sessions j).1 !! i = Some s' ∧ token_set s')
  ∧ (∀ j st, ∃ s', complete_session sessions j st !! i = Some s'
                   ∧ token_set s')
  ∧ (∀ now max_age_hours s',
       (cleanup_old_sessions sessions now max_age_hours).1 !! i = Some s' →
       token_set s').
Proof.
  unfold token_set. intros Hs Hset. split; [|split].
  - intros j.
    destruct (cancel_session_cases sessions j)
      as [[-> _]|(s0 & s' & Hs0 & _ & -> & _ & _ & _ & _ & _ & Htok & _)];
      [eauto|].
    cbn [fst]. destruct (decide (j = i)) as [->|Hne].
    + exists s'. rewrite lookup_insert_eq. split; [done|].
      assert (s0 = s) as -> by congruence. by rewrite Htok, Hset.
    + exists s. by rewrite lookup_insert_ne.
  - intros j st. unfold complete_session.
    destruct (sessions !! j) as [s0|] eqn:Hs0; [|eauto].
    destruct (decide (j = i)) as [->|Hne].
    + eexists. rewrite lookup_insert_eq. split; [done|].
      assert (s0 = s) as -> by congruence. done.
    + exists s. by rewrite lookup_insert_ne.
  - intros now max_age_hours s'. rewrite cleanup_old_sessions_lookup, Hs. cbn.
    destruct (old_session now max_age_hours s); [done|]. by intros [= <-].
Qed.

Lemma old_session_antitone (now now' h h' : Z) s :
  h ≤ h' → now' ≤ now →
  old_session now' h' s = true → old_session now h s = true.
Proof.
  intros Hh Hnow. unfold old_session.
  rewrite !andb_true_iff, !negb_true_iff, <-!not_true_iff_false, !Qle_bool_iff.
  intros [Hterm Hold]. split; [done|]. intros Hle. apply Hold.
  eapply Qle_trans; [by apply age_hours_mono|].
  eapply Qle_trans; [exact Hle|].
  unfold Qle, inject_Z. simpl. lia.
Qed.

(** X21.  [cleanup_old_sessions] is idempotent: run again at the same
    instant with the same threshold it removes nothing and returns 0. *)
Theorem cleanup_old_sessions_idempotent sessions (now max_age_hours : Z) :
  cleanup_old_sessions
    (cleanup_old_sessions sessions now max_age_hours).1 now max_age_hours
  = ((cleanup_old_sessions sessions now max_age_hours).1, 0%nat).
Proof.
  set (kept := (cleanup_old_sessions sessions now max_age_hours).1).
  assert (Hsame : (cleanup_old_sessions kept now max_age_hours).1 = kept).
  { apply map_eq. intros i. rewrite cleanup_old_sessions_lookup.
    subst kept. rewrite cleanup_old_sessions_lookup.
    destruct (sessions !! i) as [s|]; [|done]. cbn.
    destruct (old_session now max_age_hours s) eqn:Hold; [done|].
    cbn. by rewrite Hold. }
  pose proof (cleanup_old_sessions_count kept now max_age_hours) as Hcount.
  rewrite Hsame in Hcount.
  destruct (cleanup_old_sessions kept now max_age_hours) as [m n].
  cbn [fst snd] in *. f_equal; [done|lia].
Qed.

(** X22.  A larger threshold or an earlier instant removes less: what
    [cleanup_old_sessions] keeps with threshold [h] at [now] is kept with
    [h' >= h] at [now' <= now], the count returned is not larger, and what is
    kept is always part of the registry it was given. *)
Theorem cleanup_old_sessions_monotone sessions (now now' h h' : Z) :
  h ≤ h' → now' ≤ now →
  (cleanup_old_sessions sessions now h).1
    ⊆ (cleanup_old_sessions sessions now' h').1
  ∧ (cleanup_old_sessions sessions now' h').1 ⊆ sessions
  ∧ ((cleanup_old_sessions sessions now' h').2
     ≤ (cleanup_old_sessions sessions now h).2)%nat.
Proof.
  intros Hh Hnow.
  assert (Hsub : (cleanup_old_sessions sessions now h).1
                 ⊆ (cleanup_old_sessions sessions now' h').1).
  { apply map_subseteq_spec. intros i s.
    rewrite !cleanup_old_sessions_lookup.
    destruct (sessions !! i) as [s0|]; [|done]. cbn.
    destruct (old_session now h s0) eqn:Hold; [done|]. intros [= <-].
    destruct (old_session now' h' s0) eqn:Hold'; [|done].
    apply (old_session_antitone now now' h h') in Hold'; [congruence|done..]. }
  split; [done|]. split.
  - rewrite cleanup_old_sessions_filter. apply map_filter_subseteq.
  - pose proof (cleanup_old_sessions_count sessions now h).
    pose proof (cleanup_old_sessions_count sessions now' h').
    apply map_subseteq_size in Hsub. lia.
Qed.

(** X23.  [create_session] returns and registers, under the id drawn, a
    running session with the prompt, model and task given, started at the
    current instant and with its cancellation event, if any, not set; no
    other session changes.  The registry grows by one when the id is new;
    an id already in use is taken over, and the registry keeps its size. *)
Theorem create_session_effect sessions (e : env) (p : str)
    (mo : option string) (tk : option Task) :
  let created := (create_session sessions e p mo tk).2 in
  let sessions' := (create_session sessions e p mo tk).1 in
  sessions' !! uuid4 e = Some created
  ∧ cli_session_id created = uuid4 e
  ∧ prompt created = p ∧ model created = mo ∧ task created = tk
  ∧ started_at created = utcnow e
  ∧ status created = "running"
  ∧ cancellation_token created
    = (if event_available e then Some false else None)
  ∧ (∀ j, j ≠ uuid4 e → sessions' !! j = sessions !! j)
  ∧ (sessions !! uuid4 e = None → size sessions' = S (size sessions))
  ∧ (is_Some (sessions !! uuid4 e) → size sessions' = size sessions).
Proof.
  unfold create_session. cbn [fst snd].
  split; [apply lookup_insert_eq|].
  unfold post_init.
  destruct (event_available e) eqn:He, (loop_running e) eqn:Hl; cbn;
    (repeat split; try done;
     [ by intros j Hne; rewrite lookup_insert_ne
     | by intros Hnone; apply map_size_insert_None
     | by intros Hsome; apply map_size_insert_Some ]).
Qed.

End CLISessionManagerFurther.

Lemma to_dict_prompt_preview_witness :
  let s := CLISessionManager.MkSession "a" (replicate 250 233%N) 0 None
             "running" None None in
  length (CLISessionManager.dict_prompt
            (CLISessionManager.to_dict pretty hour s)) = 203%nat
  ∧ CLISessionManager.dict_prompt (CLISessionManager.to_dict pretty hour s)
    = replicate 200 233%N ++ ascii_str "...".
Proof.
  intros s.
  destruct (proj1 (proj2 (to_dict_prompt_preview pretty hour s)))
    as (Hlen & Hcut & _).
  { apply Nat.ltb_lt. reflexivity. }
  split; [exact Hlen|]. rewrite Hcut. reflexivity.
Defined.

Lemma list_sessions_filter_witness :
  length (CLISessionManager.list_sessions pretty registry_three (λ _, hour)
            (Some "running"))
  = CLISessionManager.count_status registry_three "running".
Proof.
  apply (proj1 (list_sessions_filter pretty registry_three (λ _, hour) "running")).
  discriminate.
Defined.

Lemma get_stats_total_witness :
  let '(total, running, completed, cancelled, failed) :=
    CLISessionManager.get_stats registry_three in
  total = (running + completed + cancelled + failed)%nat.
Proof.
  apply (get_stats_total registry_three).
  apply (bool_decide_unpack
           (map_Forall (λ _ s, CLISessionManager.status s = "running"
                               ∨ CLISessionManager.status s = "completed"
                               ∨ CLISessionManager.status s = "cancelled"
                               ∨ CLISessionManager.status s = "failed")
                       registry_three)).
  by vm_compute.
Defined.

Lemma known_statuses_preserved_witness :
  CLISessionManager.known_statuses
    (CLISessionManager.cancel_session registry_three "b").1
  ∧ CLISessionManager.known_statuses
      (CLISessionManager.complete_session registry_three "b" "failed").
Proof.
  assert (Hknown : CLISessionManager.known_statuses registry_three).
  { apply (bool_decide_unpack
             (map_Forall (λ _ s, CLISessionManager.status s = "running"
                                 ∨ CLISessionManager.status s = "completed"
                                 ∨ CLISessionManager.status s = "cancelled"
                                 ∨ CLISessionManager.status s = "failed")
                         registry_three)).
    by vm_compute. }
  destruct (proj2 (known_statuses_preserved registry_three) Hknown)
    as (_ & Hcancel & _ & Hcomplete).
  split; [apply Hcancel|]. apply Hcomplete. right. by right; right.
Defined.

Lemma keyed_by_id_preserved_witness :
  CLISessionManager.keyed_by_id
    (CLISessionManager.create_session ∅ (env_at "a" 0)
       (ascii_str "long task") None None).1.
Proof.
  destruct (keyed_by_id_preserved ∅) as [Hempty Hkept].
  apply (Hkept Hempty).
Defined.

Lemma cancel_session_running_effect_witness :
  (CLISessionManager.cancel_session registry_three "b").2 = true.
Proof.
  destruct (registry_three !! "b") as [s|] eqn:Hs; [|by vm_compute in Hs].
  apply (cancel_session_running_effect registry_three "b" s Hs).
  vm_compute in Hs. by injection Hs as <-.
Defined.

Lemma token_set_stable_witness :
  let cancelled := (CLISessionManager.cancel_session registry_three "b").1 in
  ∃ s', CLISessionManager.complete_session cancelled "b" "completed" !! "b"
        = Some s'
        ∧ CLISessionManager.token_set s'.
Proof.
  intros cancelled.
  destruct (cancelled !! "b") as [s|] eqn:Hs; [|by vm_compute in Hs].
  apply (token_set_stable cancelled "b" s Hs).
  vm_compute in Hs. by injection Hs as <-.
Defined.

Lemma cleanup_old_sessions_monotone_witness :
  (CLISessionManager.cleanup_old_sessions registry_three (25 * hour) 24).1
  ⊆ (CLISessionManager.cleanup_old_sessions registry_three (24 * hour) 48).1.
Proof.
  destruct (cleanup_old_sessions_monotone registry_three
              (25 * hour) (24 * hour) 24 48) as (Hsub & _ & _).
  - lia.
  - by vm_compute.
  - exact Hsub.
Defined.

Lemma create_session_effect_witness :
  size (CLISessionManager.create_session ∅ (env_at "a" 0)
          (ascii_str "long task") None None).1 = 1%nat.
Proof.
  destruct (create_session_effect ∅ (env_at "a" 0)
              (ascii_str "long task") None None)
    as (_ & _ & _ & _ & _ & _ & _ & _ & _ & Hnew & _).
  apply Hnew. apply lookup_empty.
Defined.

Lemma get_limiter_singleton_witness :
  (RequestLimiter.get_limiter None 5 (85 # 1)).2
  = RequestLimiter.init 5 (85 # 1).
Proof.
  by apply (proj2 (proj2 (get_limiter_singleton None 5 5 (85 # 1) (85 # 1)))).
Defined.
